(** * krbn::hid_manager (src/share/hid_manager.hpp)

    A shallow embedding of the HID device registry of Karabiner-Elements and
    the properties of its arrival/removal/refresh/start/stop operations.

    The two [std::unordered_map] members are finite maps ([gmap]); objects
    owned through [std::shared_ptr] live in an append-only store and the
    pointers are indices into it, so that aliasing between the registry and
    the subscribers of the signals is kept.  Every call that leaves the class
    (IOKit, the logger, the three boost signals, the logical device) is
    recorded, in order, in a trace. *)

From stdpp Require Import gmap strings list fin_maps sorting.

Open Scope N_scope.
Set Warnings "-clear-no-such-hyp".

(** ** Data model *)

(** Raw C pointers are addresses; [nullptr] is address 0. *)
Abbreviation IOHIDDeviceRef := N (only parsing).
Abbreviation IOHIDManagerRef := N (only parsing).
Abbreviation CFArrayRef := N (only parsing).
Definition nullptr : N := 0.

(** [registry_entry_id] is a 64 bit unsigned value (types.hpp). *)
Abbreviation registry_entry_id := N (only parsing).
Abbreviation hid_usage_page := N (only parsing).
Abbreviation hid_usage := N (only parsing).

(** [IOReturn] result codes of the IOKit callbacks. *)
Abbreviation IOReturn := Z (only parsing).
Definition kIOReturnSuccess : Z := 0%Z.

(** Modelled from the spec: the logical device class
    [human_interface_device] (human_interface_device.hpp is not part of the
    sources at hand).  It is constructed from (native handle, stable
    identity) and carries the flag set by its "mark removed" mutator; its
    liveness validation is an answer of the environment, see [world]. *)
Record human_interface_device := {
  hid_device : IOHIDDeviceRef;
  hid_registry_entry_id : registry_entry_id;
  hid_removed : bool;
}.

Definition set_removed (h : human_interface_device) : human_interface_device :=
  {| hid_device := hid_device h;
     hid_registry_entry_id := hid_registry_entry_id h;
     hid_removed := true |}.

(** A non-null [std::shared_ptr<human_interface_device>] is the index of the
    object in the store; a [shared_ptr] itself may be null. *)
Abbreviation hid_ptr := nat (only parsing).
Abbreviation shared_ptr := (option nat) (only parsing).

(** [gcd_utility::main_queue_timer]: start time, interval and leeway (in
    nanoseconds); the block it runs is [refresh_if_needed]. *)
Record main_queue_timer := {
  timer_start : N;
  timer_interval : N;
  timer_leeway : N;
}.

Definition DISPATCH_TIME_NOW : N := 0.
Definition NSEC_PER_SEC : N := 1000000000.

(** The members of [hid_manager], followed by the store of the objects
    created with [std::make_shared]. *)
Record hid_manager := {
  usage_pairs_ : list (hid_usage_page * hid_usage);
  manager_ : IOHIDManagerRef;
  registry_entry_ids_ : gmap IOHIDDeviceRef registry_entry_id;
  hids_ : gmap registry_entry_id shared_ptr;
  refresh_timer_ : option main_queue_timer;
  heap : list human_interface_device;
}.

(** The constructor: [usage_pairs_(usage_pairs), manager_(nullptr)]. *)
Definition hid_manager_new (usage_pairs : list (hid_usage_page * hid_usage))
  : hid_manager :=
  {| usage_pairs_ := usage_pairs;
     manager_ := nullptr;
     registry_entry_ids_ := ∅;
     hids_ := ∅;
     refresh_timer_ := None;
     heap := [] |}.

(** [get_hids]. *)
Definition get_hids (s : hid_manager) : gmap registry_entry_id shared_ptr :=
  hids_ s.

(** ** Calls to the collaborators *)

(** What leaves the class, in the order the code does it. *)
Inductive event :=
| E_logger_error (msg : string)
| E_logger_warn (name_for_log : hid_ptr)
| E_IOHIDManagerCreate
| E_create_device_matching_dictionaries
| E_IOHIDManagerSetDeviceMatchingMultiple (m : IOHIDManagerRef) (dicts : CFArrayRef)
| E_CFRelease (ref : N)
| E_IOHIDManagerRegisterDeviceMatchingCallback (m : IOHIDManagerRef)
| E_IOHIDManagerRegisterDeviceRemovalCallback (m : IOHIDManagerRef)
| E_IOHIDManagerScheduleWithRunLoop (m : IOHIDManagerRef)
| E_IOHIDManagerUnscheduleFromRunLoop (m : IOHIDManagerRef)
| E_device_detecting (device : IOHIDDeviceRef)
| E_iokit_find_registry_entry_id (device : IOHIDDeviceRef)
| E_validate (hid : hid_ptr)
| E_device_detected (hid : hid_ptr)
| E_device_removed (hid : hid_ptr).

Global Instance event_eq_dec : EqDecision event.
Proof. solve_decision. Defined.

(** The answers of the collaborators during one entry into the class.

    The last two fields are the order in which a range-for visits the
    entries of [hids_].  It is the order of the buckets of the
    [std::unordered_map], which the content of the map does not determine
    (the same entries may be met in another order in another entry into the
    class); all that is known of it is that every entry is visited once. *)
Record world := {
  IOHIDManagerCreate : IOHIDManagerRef;
  create_device_matching_dictionaries :
    list (hid_usage_page * hid_usage) → CFArrayRef;
  device_detecting : IOHIDDeviceRef → bool;
  iokit_find_registry_entry_id : IOHIDDeviceRef → option registry_entry_id;
  validate : hid_ptr → bool;
  hids_order :
    gmap registry_entry_id shared_ptr → list (registry_entry_id * shared_ptr);
  hids_order_visits_each_once : ∀ h, hids_order h ≡ₚ map_to_list h;
}.

(** ** The monad of member functions

    A member function reads and writes the members, appends to the trace,
    and has no result at all when it runs into undefined behaviour (the
    dereference of a null [shared_ptr]). *)
Definition M (A : Type) : Type :=
  hid_manager → option (A * hid_manager * list event).

Global Instance M_ret : MRet M := λ A a s, Some (a, s, []).
Global Instance M_bind : MBind M := λ A B f m s,
  match m s with
  | Some (a, s1, t1) =>
      match f a s1 with
      | Some (b, s2, t2) => Some (b, s2, t1 ++ t2)
      | None => None
      end
  | None => None
  end.

Definition get {A} (field : hid_manager → A) : M A := λ s, Some (field s, s, []).
Definition call (e : event) : M unit := λ s, Some (tt, s, [e]).
Definition undefined_behaviour {A} : M A := λ _, None.

Definition set_manager_ (m : IOHIDManagerRef) : M unit := λ s,
  Some (tt, {| usage_pairs_ := usage_pairs_ s; manager_ := m;
               registry_entry_ids_ := registry_entry_ids_ s; hids_ := hids_ s;
               refresh_timer_ := refresh_timer_ s; heap := heap s |}, []).

Definition set_registry_entry_ids_ (r : gmap IOHIDDeviceRef registry_entry_id)
  : M unit := λ s,
  Some (tt, {| usage_pairs_ := usage_pairs_ s; manager_ := manager_ s;
               registry_entry_ids_ := r; hids_ := hids_ s;
               refresh_timer_ := refresh_timer_ s; heap := heap s |}, []).

Definition set_hids_ (h : gmap registry_entry_id shared_ptr) : M unit := λ s,
  Some (tt, {| usage_pairs_ := usage_pairs_ s; manager_ := manager_ s;
               registry_entry_ids_ := registry_entry_ids_ s; hids_ := h;
               refresh_timer_ := refresh_timer_ s; heap := heap s |}, []).

Definition set_refresh_timer_ (t : option main_queue_timer) : M unit := λ s,
  Some (tt, {| usage_pairs_ := usage_pairs_ s; manager_ := manager_ s;
               registry_entry_ids_ := registry_entry_ids_ s; hids_ := hids_ s;
               refresh_timer_ := t; heap := heap s |}, []).

Definition set_heap (h : list human_interface_device) : M unit := λ s,
  Some (tt, {| usage_pairs_ := usage_pairs_ s; manager_ := manager_ s;
               registry_entry_ids_ := registry_entry_ids_ s; hids_ := hids_ s;
               refresh_timer_ := refresh_timer_ s; heap := h |}, []).

(** [std::make_shared<human_interface_device>(device, registry_entry_id)]:
    a new object at the end of the store. *)
Definition make_shared (device : IOHIDDeviceRef) (id : registry_entry_id)
  : M hid_ptr := λ s,
  (h ← get heap;
   set_heap (h ++ [{| hid_device := device; hid_registry_entry_id := id;
                      hid_removed := false |}]);;
   mret (length h)) s.

(** [hid->set_removed()] on the shared object. *)
Definition hid_set_removed (hid : hid_ptr) : M unit :=
  h ← get heap; set_heap (alter set_removed hid h).

(** ** Member functions *)

(** [stop]: the block is run on the control thread, synchronously. *)
Definition stop : M unit :=
  set_refresh_timer_ None;;
  m ← get manager_;
  (if bool_decide (m ≠ nullptr) then
     call (E_IOHIDManagerUnscheduleFromRunLoop m);;
     call (E_CFRelease m);;
     set_manager_ nullptr
   else mret tt);;
  set_registry_entry_ids_ ∅;;
  set_hids_ ∅.

(** [find_registry_entry_id] (the private member, a lookup in the cache). *)
Definition find_registry_entry_id (device : IOHIDDeviceRef)
  : M (option registry_entry_id) :=
  r ← get registry_entry_ids_; mret (r !! device).

(** The erase loop of [device_removal_callback] over the entries of
    [registry_entry_ids_], in iteration order. *)
Fixpoint erase_loop (id : registry_entry_id)
    (entries : list (IOHIDDeviceRef * registry_entry_id))
    (r : gmap IOHIDDeviceRef registry_entry_id)
  : gmap IOHIDDeviceRef registry_entry_id :=
  match entries with
  | [] => r
  | (device, second) :: rest =>
      if bool_decide (second = id) then erase_loop id rest (delete device r)
      else erase_loop id rest r
  end.

Definition device_removal_callback (device : IOHIDDeviceRef) : M unit :=
  if bool_decide (device = nullptr) then mret tt
  else
    o ← find_registry_entry_id device;
    match o with
    | Some id =>
        h ← get hids_;
        match h !! id with
        | Some (Some hid) =>
            set_hids_ (delete id h);;
            hid_set_removed hid;;
            call (E_device_removed hid)
        | _ => mret tt
        end;;
        r ← get registry_entry_ids_;
        set_registry_entry_ids_ (erase_loop id (map_to_list r) r)
    | None => mret tt
    end.

(** The context pointer handed to the static callbacks is [this] or null. *)
Inductive context := context_null | context_this.

Definition static_device_removal_callback (ctx : context) (result : IOReturn)
    (device : IOHIDDeviceRef) : M unit :=
  if bool_decide (result ≠ kIOReturnSuccess) then mret tt
  else match ctx with
       | context_null => mret tt
       | context_this => device_removal_callback device
       end.

Section with_world.
Variable w : world.

Definition start : M unit :=
  m ← get manager_;
  (if bool_decide (m ≠ nullptr) then stop else mret tt);;
  call E_IOHIDManagerCreate;;
  set_manager_ (IOHIDManagerCreate w);;
  m ← get manager_;
  if bool_decide (m = nullptr) then
    call (E_logger_error "{0}: failed to IOHIDManagerCreate")
  else
    up ← get usage_pairs_;
    call E_create_device_matching_dictionaries;;
    (let device_matching_dictionaries :=
       create_device_matching_dictionaries w up in
     if bool_decide (device_matching_dictionaries ≠ nullptr) then
       call (E_IOHIDManagerSetDeviceMatchingMultiple
               m device_matching_dictionaries);;
       call (E_CFRelease device_matching_dictionaries)
     else mret tt);;
    call (E_IOHIDManagerRegisterDeviceMatchingCallback m);;
    call (E_IOHIDManagerRegisterDeviceRemovalCallback m);;
    call (E_IOHIDManagerScheduleWithRunLoop m);;
    set_refresh_timer_
      (Some {| timer_start := DISPATCH_TIME_NOW;
               timer_interval := 5 * NSEC_PER_SEC;
               timer_leeway := 0 |}).

Definition device_matching_callback (device : IOHIDDeviceRef) : M unit :=
  if bool_decide (device = nullptr) then mret tt
  else
    call (E_device_detecting device);;
    if negb (device_detecting w device) then mret tt
    else
      call (E_iokit_find_registry_entry_id device);;
      match iokit_find_registry_entry_id w device with
      | Some id =>
          r ← get registry_entry_ids_;
          set_registry_entry_ids_ (<[device := id]> r);;
          h ← get hids_;
          match h !! id with
          | Some _ => mret tt
          | None =>
              hid ← make_shared device id;
              h ← get hids_;
              set_hids_ (<[id := Some hid]> h);;
              call (E_device_detected hid)
          end
      | None => mret tt
      end.

Definition static_device_matching_callback (ctx : context)
    (result : IOReturn) (device : IOHIDDeviceRef) : M unit :=
  if bool_decide (result ≠ kIOReturnSuccess) then mret tt
  else match ctx with
       | context_null => mret tt
       | context_this => device_matching_callback device
       end.

(** The range-for of [refresh_if_needed] over the entries of [hids_], in
    iteration order. *)
Fixpoint refresh_loop (entries : list (registry_entry_id * shared_ptr))
  : M unit :=
  match entries with
  | [] => mret tt
  | (_, second) :: rest =>
      match second with
      | None => undefined_behaviour
      | Some hid =>
          call (E_validate hid);;
          if negb (validate w hid) then
            call (E_logger_warn hid);;
            start
          else refresh_loop rest
      end
  end.

Definition refresh_if_needed : M unit :=
  h ← get hids_; refresh_loop (hids_order w h).
End with_world.

(** ** Entries into the class and reachable states

    The class is entered by a call of [start] or [stop], by IOKit through
    one of the two static callbacks (registered on [manager_], so only while
    a session is open) and by the refresh timer (only while it exists). *)
Inductive entry :=
| call_start
| call_stop
| os_device_matching (ctx : context) (result : IOReturn) (device : IOHIDDeviceRef)
| os_device_removal (ctx : context) (result : IOReturn) (device : IOHIDDeviceRef)
| timer_fired.

Definition enabled (e : entry) (s : hid_manager) : bool :=
  match e with
  | call_start | call_stop => true
  | os_device_matching _ _ _ | os_device_removal _ _ _ =>
      bool_decide (manager_ s ≠ nullptr)
  | timer_fired => bool_decide (refresh_timer_ s ≠ None)
  end.

Definition enter (w : world) (e : entry) : M unit :=
  match e with
  | call_start => start w
  | call_stop => stop
  | os_device_matching ctx result device =>
      static_device_matching_callback w ctx result device
  | os_device_removal ctx result device =>
      static_device_removal_callback ctx result device
  | timer_fired => refresh_if_needed w
  end.

Inductive reachable : hid_manager → Prop :=
| reachable_new usage_pairs : reachable (hid_manager_new usage_pairs)
| reachable_enter s w e s' t :
    reachable s → enabled e s = true → enter w e s = Some (tt, s', t) →
    reachable s'.

(** What holds in every reachable state: without a session there is no
    timer and nothing is tracked, and [hids_] holds live objects only. *)
Definition invariant (s : hid_manager) : Prop :=
  (manager_ s = nullptr →
   refresh_timer_ s = None ∧ registry_entry_ids_ s = ∅ ∧ hids_ s = ∅) ∧
  (∀ id v, hids_ s !! id = Some v →
           ∃ hid : hid_ptr, v = Some hid ∧ (hid < length (heap s))%nat).

(** A run of arrival callbacks, each with the answers of its own world. *)
Fixpoint arrivals (l : list (world * IOHIDDeviceRef)) : M unit :=
  match l with
  | [] => mret tt
  | (w, device) :: rest => device_matching_callback w device;; arrivals rest
  end.

(** An arrival that is accepted by the pre-filter and resolves to [id]. *)
Definition arrival_of (id : registry_entry_id) (a : world * IOHIDDeviceRef)
  : Prop :=
  a.2 ≠ nullptr ∧ device_detecting a.1 a.2 = true ∧
  iokit_find_registry_entry_id a.1 a.2 = Some id.

(** The objects announced by [device_detected] / [device_removed] and the
    handles looked up in IOKit, as they occur in a trace. *)
Definition detected (t : list event) : list hid_ptr :=
  omap (λ e, match e with E_device_detected hid => Some hid | _ => None end) t.

Definition removed (t : list event) : list hid_ptr :=
  omap (λ e, match e with E_device_removed hid => Some hid | _ => None end) t.

Definition os_queries (t : list event) : list IOHIDDeviceRef :=
  omap (λ e, match e with
             | E_iokit_find_registry_entry_id d => Some d
             | _ => None
             end) t.

Definition validated (t : list event) : list hid_ptr :=
  omap (λ e, match e with E_validate hid => Some hid | _ => None end) t.

(** The registrations made by [start] on a session. *)
Definition is_registration (e : event) : bool :=
  match e with
  | E_IOHIDManagerRegisterDeviceMatchingCallback _
  | E_IOHIDManagerRegisterDeviceRemovalCallback _
  | E_IOHIDManagerScheduleWithRunLoop _ => true
  | _ => false
  end.

Definition registrations (t : list event) : list event :=
  filter (λ e, is_registration e = true) t.

(** The state [stop] leaves and the calls it makes. *)
Definition stopped (s : hid_manager) : hid_manager :=
  {| usage_pairs_ := usage_pairs_ s; manager_ := nullptr;
     registry_entry_ids_ := ∅; hids_ := ∅; refresh_timer_ := None;
     heap := heap s |}.

Definition stop_trace (s : hid_manager) : list event :=
  if bool_decide (manager_ s ≠ nullptr) then
    [E_IOHIDManagerUnscheduleFromRunLoop (manager_ s); E_CFRelease (manager_ s)]
  else [].

(** The state [start] leaves when it runs on a manager without a session,
    and the calls it makes after the optional [stop]. *)
Definition the_refresh_timer : main_queue_timer :=
  {| timer_start := DISPATCH_TIME_NOW;
     timer_interval := 5 * NSEC_PER_SEC;
     timer_leeway := 0 |}.

Definition opened (w : world) (s : hid_manager) : hid_manager :=
  {| usage_pairs_ := usage_pairs_ s; manager_ := IOHIDManagerCreate w;
     registry_entry_ids_ := registry_entry_ids_ s; hids_ := hids_ s;
     refresh_timer_ :=
       if bool_decide (IOHIDManagerCreate w = nullptr) then refresh_timer_ s
       else Some the_refresh_timer;
     heap := heap s |}.

Definition open_trace (w : world) (s : hid_manager) : list event :=
  E_IOHIDManagerCreate ::
  if bool_decide (IOHIDManagerCreate w = nullptr) then
    [E_logger_error "{0}: failed to IOHIDManagerCreate"]
  else
    E_create_device_matching_dictionaries ::
    (let d := create_device_matching_dictionaries w (usage_pairs_ s) in
     if bool_decide (d ≠ nullptr) then
       [E_IOHIDManagerSetDeviceMatchingMultiple (IOHIDManagerCreate w) d;
        E_CFRelease d]
     else []) ++
    [E_IOHIDManagerRegisterDeviceMatchingCallback (IOHIDManagerCreate w);
     E_IOHIDManagerRegisterDeviceRemovalCallback (IOHIDManagerCreate w);
     E_IOHIDManagerScheduleWithRunLoop (IOHIDManagerCreate w)].

(** ** A concrete session

    A keyboard-and-mouse device with three interfaces (handles 1, 2 and 3,
    identity 100), a second device (handle 11, identity 200) and a third
    one (handle 21, identity 300); handle 66 is vetoed by the subscriber,
    handles from 30 on have no identity, and the object created first does
    not validate.  The entries of [hids_] are visited by descending
    identity. *)
Definition identity_ge (a b : registry_entry_id * shared_ptr) : Prop :=
  b.1 ≤ a.1.

Global Instance identity_ge_dec : RelDecision identity_ge.
Proof. intros a b. unfold identity_ge. apply _. Defined.

Definition by_descending_identity (h : gmap registry_entry_id shared_ptr)
  : list (registry_entry_id * shared_ptr) :=
  merge_sort identity_ge (map_to_list h).

Definition example_world : world :=
  {| IOHIDManagerCreate := 7;
     create_device_matching_dictionaries := λ _, 9;
     device_detecting := λ device, bool_decide (device ≠ 66);
     iokit_find_registry_entry_id := λ device,
       if bool_decide (device < 10) then Some 100
       else if bool_decide (device < 20) then Some 200
       else if bool_decide (device < 30) then Some 300
       else None;
     validate := λ hid, bool_decide (hid ≠ 0%nat);
     hids_order := by_descending_identity;
     hids_order_visits_each_once := λ h,
       merge_sort_Permutation identity_ge (map_to_list h) |}.

(** The same world, except that the entries of [hids_] are visited by
    ascending identity. *)
Definition identity_le (a b : registry_entry_id * shared_ptr) : Prop :=
  a.1 ≤ b.1.

Global Instance identity_le_dec : RelDecision identity_le.
Proof. intros a b. unfold identity_le. apply _. Defined.

Definition ascending_world : world :=
  {| IOHIDManagerCreate := IOHIDManagerCreate example_world;
     create_device_matching_dictionaries :=
       create_device_matching_dictionaries example_world;
     device_detecting := device_detecting example_world;
     iokit_find_registry_entry_id := iokit_find_registry_entry_id example_world;
     validate := validate example_world;
     hids_order := λ h, merge_sort identity_le (map_to_list h);
     hids_order_visits_each_once := λ h,
       merge_sort_Permutation identity_le (map_to_list h) |}.

(** The same world, except that IOKit fails to create a session. *)
Definition failing_world : world :=
  {| IOHIDManagerCreate := nullptr;
     create_device_matching_dictionaries :=
       create_device_matching_dictionaries example_world;
     device_detecting := device_detecting example_world;
     iokit_find_registry_entry_id := iokit_find_registry_entry_id example_world;
     validate := validate example_world;
     hids_order := hids_order example_world;
     hids_order_visits_each_once := hids_order_visits_each_once example_world |}.

Definition example_usage_pairs : list (hid_usage_page * hid_usage) :=
  [(1, 6); (1, 2)].

(** After [start] in [example_world]. *)
Definition example_started : hid_manager :=
  {| usage_pairs_ := example_usage_pairs; manager_ := 7;
     registry_entry_ids_ := ∅; hids_ := ∅;
     refresh_timer_ := Some the_refresh_timer; heap := [] |}.

(** After the arrival of handles 1, 2, 3, 11 and 21. *)
Definition example_tracking : hid_manager :=
  {| usage_pairs_ := example_usage_pairs; manager_ := 7;
     registry_entry_ids_ :=
       {[1 := 100; 2 := 100; 3 := 100; 11 := 200; 21 := 300]};
     hids_ := {[100 := Some 0%nat; 200 := Some 1%nat; 300 := Some 2%nat]};
     refresh_timer_ := Some the_refresh_timer;
     heap := [{| hid_device := 1; hid_registry_entry_id := 100;
                 hid_removed := false |};
              {| hid_device := 11; hid_registry_entry_id := 200;
                 hid_removed := false |};
              {| hid_device := 21; hid_registry_entry_id := 300;
                 hid_removed := false |}] |}.

(** ** Runs and what they keep

    A run from [s0]: the entries made one after the other, each enabled in
    the state it finds, with the calls of all of them in order. *)
Inductive reaches (s0 : hid_manager) : hid_manager → list event → Prop :=
| reaches_nil : reaches s0 s0 []
| reaches_enter s t w e s' t' :
    reaches s0 s t → enabled e s = true → enter w e s = Some (tt, s', t') →
    reaches s0 s' (t ++ t').

(** The objects held by [hids_], in the order in which a range-for over
    [hids_] visits them in the world [w]. *)
Definition scanned (w : world) (s : hid_manager) : list hid_ptr :=
  omap snd (hids_order w (hids_ s)).

(** The sessions put on and taken off the run loop, as they occur in a
    trace. *)
Definition scheduled (t : list event) : list IOHIDManagerRef :=
  omap (λ e, match e with
             | E_IOHIDManagerScheduleWithRunLoop m => Some m
             | _ => None
             end) t.

Definition unscheduled (t : list event) : list IOHIDManagerRef :=
  omap (λ e, match e with
             | E_IOHIDManagerUnscheduleFromRunLoop m => Some m
             | _ => None
             end) t.

Definition released (t : list event) : list N :=
  omap (λ e, match e with E_CFRelease ref => Some ref | _ => None end) t.

(** What ties the two maps, the objects and the timer together. *)
Definition registry_invariant (s : hid_manager) : Prop :=
  (∀ id hid, hids_ s !! id = Some (Some hid) →
     ∃ obj, heap s !! hid = Some obj ∧
            hid_registry_entry_id obj = id ∧ hid_removed obj = false) ∧
  (∀ device id, registry_entry_ids_ s !! device = Some id →
     device ≠ nullptr ∧ is_Some (hids_ s !! id)) ∧
  (manager_ s = nullptr ↔ refresh_timer_ s = None) ∧
  (∀ timer, refresh_timer_ s = Some timer → timer = the_refresh_timer).

(** The store [h'] has every object of [h], at the same place, made from
    the same handle and identity, and still marked removed if it was. *)
Definition store_extends (h h' : list human_interface_device) : Prop :=
  ∀ hid obj, h !! hid = Some obj →
    ∃ obj', h' !! hid = Some obj' ∧
            hid_device obj' = hid_device obj ∧
            hid_registry_entry_id obj' = hid_registry_entry_id obj ∧
            (hid_removed obj = true → hid_removed obj' = true).

(** The object [make_shared] creates. *)
Definition new_device (device : IOHIDDeviceRef) (id : registry_entry_id)
  : human_interface_device :=
  {| hid_device := device; hid_registry_entry_id := id; hid_removed := false |}.

(** The states the two callbacks leave when they change something. *)
Definition cached (device : IOHIDDeviceRef) (id : registry_entry_id)
    (s : hid_manager) : hid_manager :=
  {| usage_pairs_ := usage_pairs_ s; manager_ := manager_ s;
     registry_entry_ids_ := <[device := id]> (registry_entry_ids_ s);
     hids_ := hids_ s;
     refresh_timer_ := refresh_timer_ s; heap := heap s |}.

Definition cached_and_created (device : IOHIDDeviceRef)
    (id : registry_entry_id) (s : hid_manager) : hid_manager :=
  {| usage_pairs_ := usage_pairs_ s; manager_ := manager_ s;
     registry_entry_ids_ := <[device := id]> (registry_entry_ids_ s);
     hids_ := <[id := Some (length (heap s))]> (hids_ s);
     refresh_timer_ := refresh_timer_ s;
     heap := heap s ++ [new_device device id] |}.

Definition purged (id : registry_entry_id) (s : hid_manager) : hid_manager :=
  {| usage_pairs_ := usage_pairs_ s; manager_ := manager_ s;
     registry_entry_ids_ := filter (λ kv, kv.2 ≠ id) (registry_entry_ids_ s);
     hids_ := hids_ s;
     refresh_timer_ := refresh_timer_ s; heap := heap s |}.

Definition evicted (id : registry_entry_id) (hid : hid_ptr) (s : hid_manager)
  : hid_manager :=
  {| usage_pairs_ := usage_pairs_ s; manager_ := manager_ s;
     registry_entry_ids_ := filter (λ kv, kv.2 ≠ id) (registry_entry_ids_ s);
     hids_ := delete id (hids_ s);
     refresh_timer_ := refresh_timer_ s;
     heap := alter set_removed hid (heap s) |}.

(** Calls that neither announce a device nor touch a session. *)
Definition is_quiet (e : event) : bool :=
  match e with
  | E_validate _ | E_logger_warn _ | E_device_detecting _
  | E_iokit_find_registry_entry_id _ => true
  | _ => false
  end.

Definition quiet (t : list event) : Prop := Forall (λ e, is_quiet e = true) t.

(** A world in which every object validates. *)
Definition healthy_world : world :=
  {| IOHIDManagerCreate := IOHIDManagerCreate example_world;
     create_device_matching_dictionaries :=
       create_device_matching_dictionaries example_world;
     device_detecting := device_detecting example_world;
     iokit_find_registry_entry_id := iokit_find_registry_entry_id example_world;
     validate := λ _, true;
     hids_order := hids_order example_world;
     hids_order_visits_each_once := hids_order_visits_each_once example_world |}.

(** The calls of a reconciliation pass on [example_tracking] in
    [example_world], and the state it leaves. *)
Definition example_rebuild_trace : list event :=
  [E_validate 2%nat; E_validate 1%nat; E_validate 0%nat;
   E_logger_warn 0%nat] ++
  stop_trace example_tracking ++ open_trace example_world example_tracking.

Definition example_rebuilt : hid_manager :=
  opened example_world (stopped example_tracking).

(** The calls made on the way to [example_tracking]. *)
Definition example_trace : list event :=
  [E_IOHIDManagerCreate; E_create_device_matching_dictionaries;
   E_IOHIDManagerSetDeviceMatchingMultiple 7 9; E_CFRelease 9;
   E_IOHIDManagerRegisterDeviceMatchingCallback 7;
   E_IOHIDManagerRegisterDeviceRemovalCallback 7;
   E_IOHIDManagerScheduleWithRunLoop 7;
   E_device_detecting 1; E_iokit_find_registry_entry_id 1;
   E_device_detected 0%nat;
   E_device_detecting 2; E_iokit_find_registry_entry_id 2;
   E_device_detecting 3; E_iokit_find_registry_entry_id 3;
   E_device_detecting 11; E_iokit_find_registry_entry_id 11;
   E_device_detected 1%nat;
   E_device_detecting 21; E_iokit_find_registry_entry_id 21;
   E_device_detected 2%nat].

(** ** Basic facts *)

Ltac unfold_M :=
  unfold mbind, M_bind, mret, M_ret, get, call, set_manager_,
    set_registry_entry_ids_, set_hids_, set_refresh_timer_, set_heap,
    undefined_behaviour in *.

Lemma stop_eq s : stop s = Some (tt, stopped s, stop_trace s).
Proof.
  unfold stop, stopped, stop_trace. unfold_M. simpl.
  case_bool_decide as Hm; simpl; [reflexivity|].
  by rewrite Hm.
Qed.

Lemma bind_eq {A B} (m : M A) (f : A → M B) s a s1 t1 :
  m s = Some (a, s1, t1) →
  (m ≫= f) s = match f a s1 with
               | Some (b, s2, t2) => Some (b, s2, t1 ++ t2)
               | None => None
               end.
Proof. intros H. unfold mbind, M_bind. by rewrite H. Qed.

Lemma start_eq w s :
  start w s =
  Some (tt,
        opened w (if bool_decide (manager_ s ≠ nullptr) then stopped s else s),
        stop_trace s ++ open_trace w s).
Proof.
  unfold start. erewrite bind_eq by reflexivity.
  erewrite (bind_eq (if bool_decide (manager_ s ≠ nullptr) then stop else mret tt))
    with (s1 := if bool_decide (manager_ s ≠ nullptr) then stopped s else s)
         (t1 := stop_trace s) (a := tt).
  2:{ unfold stop_trace.
      case_bool_decide; [|reflexivity].
      rewrite stop_eq. unfold stop_trace. by rewrite bool_decide_true. }
  unfold_M. unfold opened, open_trace, the_refresh_timer. simpl.
  set (s0 := if bool_decide (manager_ s ≠ nullptr) then stopped s else s).
  assert (usage_pairs_ s0 = usage_pairs_ s) as Hup
    by (unfold s0; by case_bool_decide).
  rewrite Hup.
  repeat case_bool_decide; simpl; rewrite ?app_nil_r; try done.
Qed.

Lemma matching_eq w device s :
  device_matching_callback w device s =
  if bool_decide (device = nullptr) then Some (tt, s, [])
  else if negb (device_detecting w device) then
    Some (tt, s, [E_device_detecting device])
  else match iokit_find_registry_entry_id w device with
       | None =>
           Some (tt, s, [E_device_detecting device;
                         E_iokit_find_registry_entry_id device])
       | Some id =>
           match hids_ s !! id with
           | Some _ =>
               Some (tt,
                     {| usage_pairs_ := usage_pairs_ s; manager_ := manager_ s;
                        registry_entry_ids_ :=
                          <[device := id]> (registry_entry_ids_ s);
                        hids_ := hids_ s;
                        refresh_timer_ := refresh_timer_ s; heap := heap s |},
                     [E_device_detecting device;
                      E_iokit_find_registry_entry_id device])
           | None =>
               Some (tt,
                     {| usage_pairs_ := usage_pairs_ s; manager_ := manager_ s;
                        registry_entry_ids_ :=
                          <[device := id]> (registry_entry_ids_ s);
                        hids_ := <[id := Some (length (heap s))]> (hids_ s);
                        refresh_timer_ := refresh_timer_ s;
                        heap := heap s ++
                                [{| hid_device := device;
                                    hid_registry_entry_id := id;
                                    hid_removed := false |}] |},
                     [E_device_detecting device;
                      E_iokit_find_registry_entry_id device;
                      E_device_detected (length (heap s))])
           end
       end.
Proof.
  unfold device_matching_callback, make_shared. unfold_M.
  case_bool_decide; [done|]. simpl.
  destruct (device_detecting w device); simpl; [|done].
  destruct (iokit_find_registry_entry_id w device) as [id|]; simpl; [|done].
  destruct (hids_ s !! id); simpl; [|done].
  destruct s; reflexivity.
Qed.

Lemma removal_eq device s :
  device_removal_callback device s =
  if bool_decide (device = nullptr) then Some (tt, s, [])
  else match registry_entry_ids_ s !! device with
       | None => Some (tt, s, [])
       | Some id =>
           let r := registry_entry_ids_ s in
           match hids_ s !! id with
           | Some (Some hid) =>
               Some (tt,
                     {| usage_pairs_ := usage_pairs_ s; manager_ := manager_ s;
                        registry_entry_ids_ := erase_loop id (map_to_list r) r;
                        hids_ := delete id (hids_ s);
                        refresh_timer_ := refresh_timer_ s;
                        heap := alter set_removed hid (heap s) |},
                     [E_device_removed hid])
           | _ =>
               Some (tt,
                     {| usage_pairs_ := usage_pairs_ s; manager_ := manager_ s;
                        registry_entry_ids_ := erase_loop id (map_to_list r) r;
                        hids_ := hids_ s;
                        refresh_timer_ := refresh_timer_ s; heap := heap s |},
                     [])
           end
       end.
Proof.
  unfold device_removal_callback, find_registry_entry_id, hid_set_removed.
  unfold_M. case_bool_decide; [done|]. simpl.
  destruct (registry_entry_ids_ s !! device) as [id|]; simpl; [|done].
  destruct (hids_ s !! id) as [[hid|]|]; simpl; done.
Qed.

(** The erase loop removes exactly the entries whose value is [id],
    whatever the order in which the entries are visited. *)
Lemma erase_loop_lookup id entries r device :
  erase_loop id entries r !! device =
  if decide ((device, id) ∈ entries) then None else r !! device.
Proof.
  revert r. induction entries as [|[d v] rest IH]; intros r; cbn [erase_loop].
  - destruct (decide ((device, id) ∈ [])) as [Hin|]; [|done].
    by apply elem_of_nil in Hin.
  - assert ((device, id) ∈ (d, v) :: rest ↔
            (device = d ∧ v = id) ∨ (device, id) ∈ rest) as Hcons.
    { rewrite elem_of_cons. naive_solver. }
    case_bool_decide as Hv; rewrite IH.
    + destruct (decide (device = d)) as [->|Hd].
      * rewrite lookup_delete_eq.
        destruct (decide ((d, id) ∈ rest)), (decide ((d, id) ∈ (d, v) :: rest));
          naive_solver.
      * rewrite lookup_delete_ne by done.
        destruct (decide ((device, id) ∈ rest)),
          (decide ((device, id) ∈ (d, v) :: rest)); naive_solver.
    + destruct (decide ((device, id) ∈ rest)),
        (decide ((device, id) ∈ (d, v) :: rest)); naive_solver.
Qed.

Lemma erase_loop_filter id (r : gmap N N) :
  erase_loop id (map_to_list r) r = filter (λ kv, kv.2 ≠ id) r.
Proof.
  apply map_eq. intros device.
  rewrite erase_loop_lookup, map_lookup_filter.
  destruct (r !! device) as [v|] eqn:Hr; simpl.
  - case_decide as Hin.
    + apply elem_of_map_to_list in Hin.
      assert (v = id) as -> by congruence.
      by rewrite option_guard_False by (simpl; auto).
    + destruct (decide (v = id)) as [->|Hv].
      * exfalso. apply Hin. by apply elem_of_map_to_list.
      * by rewrite option_guard_True.
  - by case_decide.
Qed.

(** ** Removal *)

(** C2: a removal callback for one native handle whose identity [id] is
    cached erases every entry of [registry_entry_ids_] whose value is [id]
    (all the handles of a multi-interface device at once) and keeps the
    others, whether or not [hids_] holds a logical device for [id]. *)
Theorem removal_purges_every_handle_of_identity device s id :
  device ≠ nullptr →
  registry_entry_ids_ s !! device = Some id →
  ∃ s' t,
    device_removal_callback device s = Some (tt, s', t) ∧
    registry_entry_ids_ s' = filter (λ kv, kv.2 ≠ id) (registry_entry_ids_ s) ∧
    (∀ d, registry_entry_ids_ s !! d = Some id →
          registry_entry_ids_ s' !! d = None) ∧
    (∀ d, registry_entry_ids_ s' !! d ≠ Some id) ∧
    (∀ d id', id' ≠ id → registry_entry_ids_ s !! d = Some id' →
              registry_entry_ids_ s' !! d = Some id').
Proof.
  intros Hdev Hcache.
  assert (∃ s' t, device_removal_callback device s = Some (tt, s', t) ∧
            registry_entry_ids_ s' =
            filter (λ kv, kv.2 ≠ id) (registry_entry_ids_ s))
    as (s' & t & Hrun & Hreg).
  { rewrite removal_eq, bool_decide_false, Hcache by done. cbn zeta.
    destruct (hids_ s !! id) as [[hid|]|];
      eexists _, _; (split; [reflexivity|]); apply erase_loop_filter. }
  exists s', t. split; [done|]. split; [done|]. rewrite Hreg.
  split; [|split].
  - intros d Hd. apply map_lookup_filter_None. right.
    intros x Hx. simpl. intros Hne. congruence.
  - intros d [_ Hd]%map_lookup_filter_Some. by apply Hd.
  - intros d id' Hne Hd. by apply map_lookup_filter_Some.
Qed.

Lemma removal_purges_every_handle_of_identity_witness :
  ∃ s' t,
    device_removal_callback 2 example_tracking = Some (tt, s', t) ∧
    registry_entry_ids_ s' =
      filter (λ kv, kv.2 ≠ 100) (registry_entry_ids_ example_tracking) ∧
    (∀ d, registry_entry_ids_ example_tracking !! d = Some 100 →
          registry_entry_ids_ s' !! d = None) ∧
    (∀ d, registry_entry_ids_ s' !! d ≠ Some 100) ∧
    (∀ d id', id' ≠ 100 → registry_entry_ids_ example_tracking !! d = Some id' →
              registry_entry_ids_ s' !! d = Some id').
Proof.
  apply (removal_purges_every_handle_of_identity 2 example_tracking 100).
  - discriminate.
  - reflexivity.
Defined.

(** C3: the removal callback takes the identity from the cache
    [registry_entry_ids_] and makes no IOKit query; when [hids_] holds a
    logical device for it, the device is erased from [hids_], marked
    removed, and [device_removed] is raised for it exactly once; otherwise
    nothing is raised and [hids_] and the objects are left as they are. *)
Theorem removal_uses_cache_and_evicts_device device s id :
  device ≠ nullptr →
  registry_entry_ids_ s !! device = Some id →
  find_registry_entry_id device s = Some (Some id, s, []) ∧
  ∃ s' t,
    device_removal_callback device s = Some (tt, s', t) ∧
    os_queries t = [] ∧
    match hids_ s !! id with
    | Some (Some hid) =>
        t = [E_device_removed hid] ∧
        hids_ s' = delete id (hids_ s) ∧
        hids_ s' !! id = None ∧
        heap s' = alter set_removed hid (heap s) ∧
        (∀ obj, heap s !! hid = Some obj →
                heap s' !! hid = Some (set_removed obj) ∧
                hid_removed (set_removed obj) = true)
    | _ => t = [] ∧ hids_ s' = hids_ s ∧ heap s' = heap s
    end.
Proof.
  intros Hdev Hcache. split.
  { unfold find_registry_entry_id. unfold_M. by rewrite Hcache. }
  rewrite removal_eq, bool_decide_false, Hcache by done. cbn zeta.
  destruct (hids_ s !! id) as [[hid|]|] eqn:Hh;
    eexists _, _; (split; [reflexivity|]); simpl; try done.
  repeat split.
  - by rewrite lookup_delete_eq.
  - rewrite list_lookup_alter_eq. by rewrite H.
Qed.

Lemma removal_uses_cache_and_evicts_device_witness :
  find_registry_entry_id 1 example_tracking =
    Some (Some 100, example_tracking, []) ∧
  ∃ s' t,
    device_removal_callback 1 example_tracking = Some (tt, s', t) ∧
    os_queries t = [] ∧
    t = [E_device_removed 0%nat] ∧
    hids_ s' = delete 100 (hids_ example_tracking) ∧
    hids_ s' !! 100 = None ∧
    heap s' = alter set_removed 0%nat (heap example_tracking) ∧
    (∀ obj, heap example_tracking !! 0%nat = Some obj →
            heap s' !! 0%nat = Some (set_removed obj) ∧
            hid_removed (set_removed obj) = true).
Proof.
  apply (removal_uses_cache_and_evicts_device 1 example_tracking 100).
  - discriminate.
  - reflexivity.
Defined.

(** C10: a removal callback for a native handle that has no entry in the
    cache [registry_entry_ids_] changes nothing: the manager (both maps and
    every object) is as before and no call is made, so no device is marked
    removed and [device_removed] is not raised. *)
Theorem removal_of_unknown_handle_is_noop device s :
  registry_entry_ids_ s !! device = None →
  device_removal_callback device s = Some (tt, s, []) ∧
  static_device_removal_callback context_this kIOReturnSuccess device s =
    Some (tt, s, []).
Proof.
  intros Hcache.
  assert (device_removal_callback device s = Some (tt, s, [])) as Hrun.
  { rewrite removal_eq, Hcache. by case_bool_decide. }
  split; [done|].
  unfold static_device_removal_callback.
  by rewrite bool_decide_false by (intros H; by apply H).
Qed.

Lemma removal_of_unknown_handle_is_noop_witness :
  device_removal_callback 12 example_tracking = Some (tt, example_tracking, []) ∧
  static_device_removal_callback context_this kIOReturnSuccess 12
    example_tracking = Some (tt, example_tracking, []).
Proof.
  apply (removal_of_unknown_handle_is_noop 12 example_tracking).
  reflexivity.
Defined.

(** ** Arrival *)

(** C7: when the pre-filter [device_detecting] rejects a native handle, the
    arrival callback stops there: the manager is unchanged (no entry in
    [registry_entry_ids_], no logical device, no new object), the identity
    is not even looked up, and [device_detected] is not raised. *)
Theorem vetoed_arrival_changes_nothing w device s :
  device ≠ nullptr →
  device_detecting w device = false →
  device_matching_callback w device s =
    Some (tt, s, [E_device_detecting device]) ∧
  detected [E_device_detecting device] = [] ∧
  os_queries [E_device_detecting device] = [].
Proof.
  intros Hdev Hveto.
  rewrite matching_eq, bool_decide_false, Hveto by done. done.
Qed.

Lemma vetoed_arrival_changes_nothing_witness :
  device_matching_callback example_world 66 example_tracking =
    Some (tt, example_tracking, [E_device_detecting 66]) ∧
  detected [E_device_detecting 66] = [] ∧
  os_queries [E_device_detecting 66] = [].
Proof.
  apply (vetoed_arrival_changes_nothing example_world 66 example_tracking).
  - discriminate.
  - reflexivity.
Defined.

(** C8: an arrival callback that is not vetoed and whose identity resolves
    to [id] records [device ↦ id] in [registry_entry_ids_] in every state,
    also when [hids_] already holds a logical device for [id]; afterwards
    the cache lookup of this handle gives [id], and a removal callback for
    this handle then purges that identity. *)
Theorem arrival_always_caches_identity w device s id :
  device ≠ nullptr →
  device_detecting w device = true →
  iokit_find_registry_entry_id w device = Some id →
  ∃ s' t,
    device_matching_callback w device s = Some (tt, s', t) ∧
    registry_entry_ids_ s' = <[device := id]> (registry_entry_ids_ s) ∧
    registry_entry_ids_ s' !! device = Some id ∧
    find_registry_entry_id device s' = Some (Some id, s', []) ∧
    (is_Some (hids_ s !! id) → hids_ s' = hids_ s ∧ detected t = []).
Proof.
  intros Hdev Hok Hid.
  rewrite matching_eq, bool_decide_false, Hok, Hid by done. cbn [negb].
  assert (∀ s' : hid_manager,
            registry_entry_ids_ s' = <[device := id]> (registry_entry_ids_ s) →
            find_registry_entry_id device s' = Some (Some id, s', [])) as Hfind.
  { intros s' Hs'. unfold find_registry_entry_id. unfold_M.
    by rewrite Hs', lookup_insert_eq. }
  destruct (hids_ s !! id) as [v|] eqn:Hh; eexists _, _;
    (split; [reflexivity|]); cbn [registry_entry_ids_ hids_];
    (split; [done|]); (split; [apply lookup_insert_eq|]);
    (split; [by apply Hfind|]).
  - done.
  - by intros [? ?].
Qed.

Lemma arrival_always_caches_identity_witness :
  ∃ s' t,
    device_matching_callback example_world 4 example_tracking =
      Some (tt, s', t) ∧
    registry_entry_ids_ s' =
      <[4 := 100]> (registry_entry_ids_ example_tracking) ∧
    registry_entry_ids_ s' !! 4 = Some 100 ∧
    find_registry_entry_id 4 s' = Some (Some 100, s', []) ∧
    (is_Some (hids_ example_tracking !! 100) →
     hids_ s' = hids_ example_tracking ∧ detected t = []).
Proof.
  apply (arrival_always_caches_identity example_world 4 example_tracking 100);
    [discriminate | reflexivity | reflexivity].
Defined.

Lemma detected_app t1 t2 : detected (t1 ++ t2) = detected t1 ++ detected t2.
Proof. apply omap_app. Qed.

(** Arrivals for an identity that is already in [hids_] announce nothing
    and leave [hids_] and the objects alone. *)
Lemma arrivals_of_tracked_identity l s id :
  Forall (arrival_of id) l →
  is_Some (hids_ s !! id) →
  ∃ s' t,
    arrivals l s = Some (tt, s', t) ∧
    detected t = [] ∧ hids_ s' = hids_ s ∧ heap s' = heap s.
Proof.
  intros Hl. revert s. induction Hl as [|[w d] l (Hdev & Hok & Hid) _ IH];
    intros s [v Hv].
  - by eexists _, _.
  - cbn [arrivals]. simpl in Hdev, Hok, Hid.
    erewrite bind_eq; last first.
    { rewrite matching_eq, bool_decide_false, Hok, Hid, Hv by done.
      reflexivity. }
    edestruct IH as (s' & t & -> & Hdet & Hh & Hheap).
    { cbn [hids_]. by rewrite Hv. }
    eexists _, _. split; [reflexivity|].
    rewrite detected_app, Hdet. done.
Qed.

(** C1: a run of arrival callbacks that are accepted by the pre-filter and
    all resolve to the identity [id].  If [hids_] has no logical device for
    [id] and the run is not empty, exactly one object is created (from the
    first handle), it is the logical device of [id] in [hids_], and
    [device_detected] is raised exactly once, for that object.  If [hids_]
    already has a logical device for [id], [device_detected] is not raised
    and no device is created. *)
Theorem arrivals_of_one_identity_detect_once l s id :
  Forall (arrival_of id) l →
  ∃ s' t,
    arrivals l s = Some (tt, s', t) ∧
    match hids_ s !! id, l with
    | None, (w, device) :: _ =>
        detected t = [length (heap s)] ∧
        hids_ s' = <[id := Some (length (heap s))]> (hids_ s) ∧
        hids_ s' !! id = Some (Some (length (heap s))) ∧
        heap s' = heap s ++ [{| hid_device := device;
                                hid_registry_entry_id := id;
                                hid_removed := false |}]
    | _, _ => detected t = [] ∧ hids_ s' = hids_ s ∧ heap s' = heap s
    end.
Proof.
  intros Hl. destruct (hids_ s !! id) as [v|] eqn:Hv.
  { destruct (arrivals_of_tracked_identity l s id) as (s' & t & ? & ?);
      [done | by rewrite Hv |]. by exists s', t. }
  destruct Hl as [|[w d] l (Hdev & Hok & Hid) Hl].
  { by eexists _, _. }
  cbn [arrivals]. simpl in Hdev, Hok, Hid.
  erewrite bind_eq; last first.
  { rewrite matching_eq, bool_decide_false, Hok, Hid, Hv by done.
    reflexivity. }
  edestruct (arrivals_of_tracked_identity l) as (s' & t & -> & Hdet & Hh & Hheap);
    [done | |].
  { cbn [hids_]. by rewrite lookup_insert_eq. }
  eexists _, _. split; [reflexivity|].
  rewrite Hh, Hheap. cbn [hids_ heap].
  rewrite !detected_app, Hdet, lookup_insert_eq. done.
Qed.

Lemma arrivals_of_one_identity_detect_once_witness :
  ∃ s' t,
    arrivals [(example_world, 1); (example_world, 2); (example_world, 3)]
      example_started = Some (tt, s', t) ∧
    detected t = [0%nat] ∧
    hids_ s' = <[100 := Some 0%nat]> ∅ ∧
    hids_ s' !! 100 = Some (Some 0%nat) ∧
    heap s' = [{| hid_device := 1; hid_registry_entry_id := 100;
                  hid_removed := false |}].
Proof.
  apply (arrivals_of_one_identity_detect_once
           [(example_world, 1); (example_world, 2); (example_world, 3)]
           example_started 100).
  repeat constructor; discriminate.
Defined.

(** ** Session lifecycle *)

(** C6: [stop] twice in a row: the second call finds the state the first
    one left, changes nothing and makes no call at all, so that [stop;;stop]
    is [stop]; and [stop] raises no [device_removed] and marks no object
    removed, neither in the first call nor in the second. *)
Theorem stop_twice_is_stop s :
  ∃ t,
    stop s = Some (tt, stopped s, t) ∧
    stop (stopped s) = Some (tt, stopped s, []) ∧
    (stop;; stop) s = stop s ∧
    removed t = [] ∧
    heap (stopped s) = heap s ∧
    registry_entry_ids_ (stopped s) = ∅ ∧ hids_ (stopped s) = ∅.
Proof.
  exists (stop_trace s). split; [apply stop_eq|].
  assert (stop (stopped s) = Some (tt, stopped s, [])) as Hsecond
    by apply (stop_eq (stopped s)).
  split; [done|]. split.
  - erewrite bind_eq by apply stop_eq. rewrite Hsecond, app_nil_r.
    by rewrite stop_eq.
  - unfold stop_trace. by case_bool_decide.
Qed.

Lemma start_of_stopped w s :
  start w (stopped s) = Some (tt, opened w (stopped s), open_trace w s).
Proof. by rewrite start_eq. Qed.

(** C5: [start] on a manager that has a session is [stop] followed by
    [start]: the session is unscheduled and released first, and when
    [start] returns both maps are empty, whether or not a new session could
    be created. *)
Theorem start_while_running_is_stop_then_start w s :
  manager_ s ≠ nullptr →
  start w s = (stop;; start w) s ∧
  ∃ s' t,
    start w (stopped s) = Some (tt, s', t) ∧
    start w s =
      Some (tt, s',
            [E_IOHIDManagerUnscheduleFromRunLoop (manager_ s);
             E_CFRelease (manager_ s)] ++ t) ∧
    registry_entry_ids_ s' = ∅ ∧ hids_ s' = ∅.
Proof.
  intros Hrun.
  assert (start w s =
          Some (tt, opened w (stopped s), stop_trace s ++ open_trace w s))
    as Hstart.
  { by rewrite start_eq, bool_decide_true. }
  split.
  - erewrite bind_eq by apply stop_eq. by rewrite start_of_stopped.
  - exists (opened w (stopped s)), (open_trace w s).
    split; [apply start_of_stopped|].
    rewrite Hstart. unfold stop_trace. by rewrite bool_decide_true.
Qed.

Lemma start_while_running_is_stop_then_start_witness :
  start example_world example_tracking =
    (stop;; start example_world) example_tracking ∧
  ∃ s' t,
    start example_world (stopped example_tracking) = Some (tt, s', t) ∧
    start example_world example_tracking =
      Some (tt, s',
            [E_IOHIDManagerUnscheduleFromRunLoop 7; E_CFRelease 7] ++ t) ∧
    registry_entry_ids_ s' = ∅ ∧ hids_ s' = ∅.
Proof.
  apply (start_while_running_is_stop_then_start example_world example_tracking).
  discriminate.
Defined.

(** *** The invariant of reachable states *)

Lemma invariant_new usage_pairs : invariant (hid_manager_new usage_pairs).
Proof.
  split; [done|]. simpl. intros id v Hv. by rewrite lookup_empty in Hv.
Qed.

Lemma invariant_stopped s : invariant (stopped s).
Proof.
  split; [done|]. simpl. intros id v Hv. by rewrite lookup_empty in Hv.
Qed.

Lemma invariant_start w s s' t :
  invariant s → start w s = Some (tt, s', t) → invariant s'.
Proof.
  intros [Hoff Hlive]. rewrite start_eq. intros [= <- _].
  case_bool_decide as Hrun.
  - split.
    + simpl. intros ->. by rewrite bool_decide_true.
    + simpl. intros id v Hv. by rewrite lookup_empty in Hv.
  - destruct (Hoff Hrun) as (Ht & Hr & Hh).
    split.
    + simpl. intros ->. by rewrite bool_decide_true.
    + simpl. intros id v Hv. by rewrite Hh, lookup_empty in Hv.
Qed.

Lemma invariant_matching w device s s' t :
  manager_ s ≠ nullptr → invariant s →
  device_matching_callback w device s = Some (tt, s', t) → invariant s'.
Proof.
  intros Hrun [Hoff Hlive]. rewrite matching_eq.
  case_bool_decide; [by intros [= <- _]|].
  destruct (device_detecting w device); cbn [negb]; [|by intros [= <- _]].
  destruct (iokit_find_registry_entry_id w device) as [id|];
    [|by intros [= <- _]].
  destruct (hids_ s !! id) as [v|] eqn:Hv; intros [= <- _];
    (split; [done|]); cbn [hids_ heap].
  - done.
  - intros id' v'. rewrite lookup_insert. case_decide.
    + intros [= <-]. eexists. split; [done|]. rewrite length_app. simpl. lia.
    + intros (hid & -> & Hlt)%Hlive. eexists. split; [done|].
      rewrite length_app. lia.
Qed.

Lemma invariant_removal device s s' t :
  manager_ s ≠ nullptr → invariant s →
  device_removal_callback device s = Some (tt, s', t) → invariant s'.
Proof.
  intros Hrun [Hoff Hlive]. rewrite removal_eq.
  case_bool_decide; [by intros [= <- _]|].
  destruct (registry_entry_ids_ s !! device) as [id|]; [|by intros [= <- _]].
  cbn zeta.
  destruct (hids_ s !! id) as [[hid|]|] eqn:Hv; intros [= <- _];
    (split; [done|]); cbn [hids_ heap]; try done.
  intros id' v'. rewrite lookup_delete. case_decide; [done|].
  intros (hid' & -> & Hlt)%Hlive. eexists. split; [done|].
  by rewrite length_alter.
Qed.

(** The loop of [refresh_if_needed] either leaves the manager as it is or
    ends in [start]. *)
Lemma refresh_loop_cases w entries s s' t :
  refresh_loop w entries s = Some (tt, s', t) →
  s' = s ∨ ∃ t', start w s = Some (tt, s', t').
Proof.
  revert t. induction entries as [|[id [hid|]] rest IH]; intros t;
    cbn [refresh_loop].
  - intros [= <- _]. by left.
  - erewrite bind_eq by reflexivity.
    destruct (validate w hid); cbn [negb].
    + destruct (refresh_loop w rest s) as [[[[] s1] t1]|] eqn:Hrest; [|done].
      intros [= <- _]. by eapply IH.
    + erewrite bind_eq by reflexivity. rewrite start_eq.
      intros [= <- _]. right. by eexists.
  - done.
Qed.

Lemma invariant_enter w e s s' t :
  enabled e s = true → invariant s →
  enter w e s = Some (tt, s', t) → invariant s'.
Proof.
  intros Hen Hinv. destruct e as [| |ctx result device|ctx result device|];
    cbn [enter enabled] in *.
  - by apply invariant_start.
  - rewrite stop_eq. intros [= <- _]. apply invariant_stopped.
  - apply bool_decide_eq_true in Hen.
    unfold static_device_matching_callback.
    case_bool_decide; [by intros [= <- _]|].
    destruct ctx; [by intros [= <- _]|]. by apply invariant_matching.
  - apply bool_decide_eq_true in Hen.
    unfold static_device_removal_callback.
    case_bool_decide; [by intros [= <- _]|].
    destruct ctx; [by intros [= <- _]|]. by apply invariant_removal.
  - unfold refresh_if_needed. erewrite bind_eq by reflexivity.
    destruct (refresh_loop w (hids_order w (hids_ s)) s)
      as [[[[] s1] t1]|] eqn:Hloop; [|done].
    intros [= <- _].
    destruct (refresh_loop_cases _ _ _ _ _ Hloop) as [->|[t' Hstart]];
      [done|]. by eapply invariant_start.
Qed.

Lemma reachable_invariant s : reachable s → invariant s.
Proof.
  induction 1 as [up|s w e s' t _ IH Hen Hrun].
  - apply invariant_new.
  - by eapply invariant_enter.
Qed.

Lemma example_started_reachable : reachable example_started.
Proof.
  apply (reachable_enter (hid_manager_new example_usage_pairs) example_world
           call_start example_started
           (open_trace example_world (hid_manager_new example_usage_pairs)));
    [constructor | reflexivity | reflexivity].
Qed.

Lemma example_tracking_reachable : reachable example_tracking.
Proof.
  assert (∀ s device s' t,
            reachable s → manager_ s ≠ nullptr →
            static_device_matching_callback example_world context_this
              kIOReturnSuccess device s = Some (tt, s', t) →
            reachable s') as Hstep.
  { intros s device s' t Hs Hm Hrun.
    by apply (reachable_enter s example_world
                (os_device_matching context_this kIOReturnSuccess device)
                s' t); [|apply bool_decide_eq_true|]. }
  pose (s1 := cached_and_created 1 100 example_started).
  pose (s2 := cached 2 100 s1).
  pose (s3 := cached 3 100 s2).
  pose (s4 := cached_and_created 11 200 s3).
  apply (Hstep s4 21 example_tracking
           [E_device_detecting 21; E_iokit_find_registry_entry_id 21;
            E_device_detected 2%nat]); [|done|vm_compute; reflexivity].
  apply (Hstep s3 11 s4
           [E_device_detecting 11; E_iokit_find_registry_entry_id 11;
            E_device_detected 1%nat]); [|done|vm_compute; reflexivity].
  apply (Hstep s2 3 s3
           [E_device_detecting 3; E_iokit_find_registry_entry_id 3]);
    [|done|vm_compute; reflexivity].
  apply (Hstep s1 2 s2
           [E_device_detecting 2; E_iokit_find_registry_entry_id 2]);
    [|done|vm_compute; reflexivity].
  apply (Hstep example_started 1 s1
           [E_device_detecting 1; E_iokit_find_registry_entry_id 1;
            E_device_detected 0%nat]); [|done|vm_compute; reflexivity].
  apply example_started_reachable.
Qed.

(** C9: when IOKit cannot create a session, [start] logs the error and
    returns; no callback is registered and nothing is scheduled, and the
    manager is in the state [stop] leaves: no session, no timer, empty
    maps.  A later [start] for which IOKit does create a session opens it,
    registers the callbacks and creates the timer. *)
Theorem failed_session_creation_leaves_manager_stopped w s :
  reachable s →
  IOHIDManagerCreate w = nullptr →
  ∃ t,
    start w s = Some (tt, stopped s, t) ∧
    E_logger_error "{0}: failed to IOHIDManagerCreate" ∈ t ∧
    registrations t = [] ∧
    manager_ (stopped s) = nullptr ∧
    refresh_timer_ (stopped s) = None ∧
    ∀ w', IOHIDManagerCreate w' ≠ nullptr →
          ∃ s' t',
            start w' (stopped s) = Some (tt, s', t') ∧
            manager_ s' = IOHIDManagerCreate w' ∧
            refresh_timer_ s' = Some the_refresh_timer ∧
            registrations t' =
              [E_IOHIDManagerRegisterDeviceMatchingCallback (manager_ s');
               E_IOHIDManagerRegisterDeviceRemovalCallback (manager_ s');
               E_IOHIDManagerScheduleWithRunLoop (manager_ s')].
Proof.
  intros [Hoff _]%reachable_invariant Hfail.
  exists (stop_trace s ++
          [E_IOHIDManagerCreate; E_logger_error "{0}: failed to IOHIDManagerCreate"]).
  split_and!; [| | |done|done|].
  - rewrite start_eq. unfold open_trace, opened.
    rewrite !(bool_decide_true (IOHIDManagerCreate w = nullptr)), Hfail by done.
    do 2 f_equal. f_equal.
    case_bool_decide as Hrun; [done|].
    destruct (Hoff Hrun) as (Ht & Hr & Hh). unfold stopped.
    by rewrite Ht, Hr, Hh.
  - set_solver.
  - unfold registrations, stop_trace. by case_bool_decide.
  - intros w' Hok. rewrite start_of_stopped. eexists _, _.
    split; [reflexivity|]. cbn [opened manager_ refresh_timer_].
    rewrite !(bool_decide_false (IOHIDManagerCreate w' = nullptr)) by done.
    split; [done|]. split; [done|].
    unfold open_trace, registrations.
    rewrite !(bool_decide_false (IOHIDManagerCreate w' = nullptr)) by done.
    by case_bool_decide.
Qed.

Lemma failed_session_creation_leaves_manager_stopped_witness :
  ∃ t,
    start failing_world example_tracking =
      Some (tt, stopped example_tracking, t) ∧
    E_logger_error "{0}: failed to IOHIDManagerCreate" ∈ t ∧
    registrations t = [] ∧
    manager_ (stopped example_tracking) = nullptr ∧
    refresh_timer_ (stopped example_tracking) = None ∧
    ∀ w', IOHIDManagerCreate w' ≠ nullptr →
          ∃ s' t',
            start w' (stopped example_tracking) = Some (tt, s', t') ∧
            manager_ s' = IOHIDManagerCreate w' ∧
            refresh_timer_ s' = Some the_refresh_timer ∧
            registrations t' =
              [E_IOHIDManagerRegisterDeviceMatchingCallback (manager_ s');
               E_IOHIDManagerRegisterDeviceRemovalCallback (manager_ s');
               E_IOHIDManagerScheduleWithRunLoop (manager_ s')].
Proof.
  apply (failed_session_creation_leaves_manager_stopped
           failing_world example_tracking).
  - apply example_tracking_reachable.
  - reflexivity.
Defined.

(** ** Reconciliation *)

Lemma validated_app t1 t2 : validated (t1 ++ t2) = validated t1 ++ validated t2.
Proof. apply omap_app. Qed.

(** The loop validates the entries in order; at the first object that does
    not validate it warns, runs [start] and leaves. *)
Lemma refresh_loop_first_invalid w l1 id hid l2 s :
  Forall (λ e, ∃ p, e.2 = Some p ∧ validate w p = true) l1 →
  validate w hid = false →
  refresh_loop w (l1 ++ (id, Some hid) :: l2) s =
  Some (tt,
        opened w (if bool_decide (manager_ s ≠ nullptr) then stopped s else s),
        (E_validate <$> omap snd l1) ++
        [E_validate hid; E_logger_warn hid] ++
        stop_trace s ++ open_trace w s).
Proof.
  intros Hl1 Hdead. induction Hl1 as [|[k v] l1 (p & Hp & Hvalid) _ IH];
    cbn [app refresh_loop].
  - erewrite bind_eq by reflexivity. rewrite Hdead. cbn [negb].
    erewrite bind_eq by reflexivity. by rewrite start_eq.
  - simpl in Hp. subst v. erewrite bind_eq by reflexivity.
    rewrite Hvalid. cbn [negb]. by rewrite IH.
Qed.

(** When every object validates, the pass changes nothing. *)
Lemma refresh_loop_all_valid w l s :
  Forall (λ e, ∃ p, e.2 = Some p ∧ validate w p = true) l →
  refresh_loop w l s = Some (tt, s, E_validate <$> omap snd l).
Proof.
  induction 1 as [|[k v] l (p & Hp & Hvalid) _ IH]; cbn [refresh_loop];
    [done|].
  simpl in Hp. subst v. erewrite bind_eq by reflexivity.
  rewrite Hvalid. cbn [negb]. by rewrite IH.
Qed.

(** C4: a reconciliation pass (the timer exists, so a session is open), in
    whatever order [l1 ++ (id, Some hid) :: l2] the range-for visits the
    entries of [hids_]: when the objects visited before [hid] validate and
    [hid] does not, the pass validates those objects and [hid], logs a
    warning naming [hid], which is the logical device of [id], and then
    does exactly what [start] does, which here is [stop] followed by
    [start]; no object after [hid] is validated, and when the pass returns
    both maps are empty. *)
Theorem refresh_restarts_on_first_invalid_device w s l1 id hid l2 :
  reachable s →
  refresh_timer_ s ≠ None →
  hids_order w (hids_ s) = l1 ++ (id, Some hid) :: l2 →
  (∀ k p, (k, Some p) ∈ l1 → validate w p = true) →
  validate w hid = false →
  ∃ s' t,
    start w s = Some (tt, s', t) ∧
    refresh_if_needed w s =
      Some (tt, s',
            (E_validate <$> omap snd l1) ++
            [E_validate hid; E_logger_warn hid] ++ t) ∧
    start w s = (stop;; start w) s ∧
    validated t = [] ∧
    registry_entry_ids_ s' = ∅ ∧ hids_ s' = ∅ ∧
    hids_ s !! id = Some (Some hid) ∧
    l1 ++ (id, Some hid) :: l2 ≡ₚ map_to_list (hids_ s).
Proof.
  intros [Hoff Hlive]%reachable_invariant Htimer Horder Hl1 Hdead.
  pose proof (hids_order_visits_each_once w (hids_ s)) as Hperm.
  rewrite Horder in Hperm.
  assert (manager_ s ≠ nullptr) as Hrun.
  { intros Hnull. by destruct (Hoff Hnull) as [? _]. }
  assert (Forall (λ e, ∃ p, e.2 = Some p ∧ validate w p = true) l1) as Hvalid.
  { apply Forall_forall. intros [k v] Hin.
    assert (hids_ s !! k = Some v) as Hk.
    { apply elem_of_map_to_list. rewrite <-Hperm. apply elem_of_app. by left. }
    destruct (Hlive _ _ Hk) as (p & -> & _). exists p. split; [done|].
    by apply (Hl1 k). }
  exists (opened w (stopped s)), (stop_trace s ++ open_trace w s).
  assert (start w s =
          Some (tt, opened w (stopped s), stop_trace s ++ open_trace w s))
    as Hstart.
  { by rewrite start_eq, bool_decide_true. }
  split_and!; [done| | | |done|done| |done].
  - unfold refresh_if_needed. erewrite bind_eq by reflexivity.
    rewrite Horder, refresh_loop_first_invalid by done.
    by rewrite bool_decide_true.
  - rewrite Hstart. erewrite bind_eq by apply stop_eq.
    by rewrite start_of_stopped.
  - rewrite validated_app. unfold stop_trace, open_trace.
    by repeat case_bool_decide.
  - apply elem_of_map_to_list. rewrite <-Hperm. apply elem_of_app.
    right. by left.
Qed.

Lemma refresh_restarts_on_first_invalid_device_witness :
  ∃ s' t,
    start example_world example_tracking = Some (tt, s', t) ∧
    refresh_if_needed example_world example_tracking =
      Some (tt, s',
            [E_validate 2%nat; E_validate 1%nat] ++
            [E_validate 0%nat; E_logger_warn 0%nat] ++ t) ∧
    start example_world example_tracking =
      (stop;; start example_world) example_tracking ∧
    validated t = [] ∧
    registry_entry_ids_ s' = ∅ ∧ hids_ s' = ∅ ∧
    hids_ example_tracking !! 100 = Some (Some 0%nat) ∧
    [(300, Some 2%nat); (200, Some 1%nat)] ++ (100, Some 0%nat) :: [] ≡ₚ
      map_to_list (hids_ example_tracking).
Proof.
  apply (refresh_restarts_on_first_invalid_device example_world
           example_tracking [(300, Some 2%nat); (200, Some 1%nat)]
           100 0%nat []).
  - apply example_tracking_reachable.
  - discriminate.
  - vm_compute. reflexivity.
  - intros k p [Heq|[Heq|Hnil]%elem_of_cons]%elem_of_cons.
    + injection Heq as _ ->. reflexivity.
    + injection Heq as _ ->. reflexivity.
    + by apply elem_of_nil in Hnil.
  - reflexivity.
Defined.

(** The same pass when the entries happen to be visited by ascending
    identity: the object that does not validate is met first, and the two
    others are not validated at all. *)
Example refresh_visiting_in_another_order :
  hids_order ascending_world (hids_ example_tracking) =
    [(100, Some 0%nat); (200, Some 1%nat); (300, Some 2%nat)] ∧
  refresh_if_needed ascending_world example_tracking =
    Some (tt, opened ascending_world (stopped example_tracking),
          [E_validate 0%nat; E_logger_warn 0%nat] ++
          stop_trace example_tracking ++
          open_trace ascending_world example_tracking).
Proof. split; vm_compute; reflexivity. Qed.

(** ** The scenario of the specification

    Arrival of handle 1 (identity 100) announces the new device; arrival of
    handle 2 (identity 100) announces nothing; removal of handle 1 announces
    the removal of that device and purges the cached entry of handle 2 as
    well, so that a later removal of handle 2 does nothing. *)
Example scenario_two_interfaces :
  (device_matching_callback example_world 1;;
   device_matching_callback example_world 2;;
   device_removal_callback 1;;
   device_removal_callback 2) example_started =
  Some (tt,
        {| usage_pairs_ := example_usage_pairs; manager_ := 7;
           registry_entry_ids_ := ∅; hids_ := ∅;
           refresh_timer_ := Some the_refresh_timer;
           heap := [{| hid_device := 1; hid_registry_entry_id := 100;
                       hid_removed := true |}] |},
        [E_device_detecting 1; E_iokit_find_registry_entry_id 1;
         E_device_detected 0%nat;
         E_device_detecting 2; E_iokit_find_registry_entry_id 2;
         E_device_removed 0%nat]).
Proof. vm_compute. reflexivity. Qed.

(** * Further properties of the code *)

(** ** Deliveries that are ignored *)

(** X1: a delivery by IOKit with a result other than [kIOReturnSuccess],
    with a null context or with a null handle is ignored by both static
    callbacks: the manager is unchanged and no call is made, not even the
    pre-filter. *)
Theorem static_callbacks_ignore_bad_delivery w ctx result device s :
  result ≠ kIOReturnSuccess ∨ ctx = context_null ∨ device = nullptr →
  static_device_matching_callback w ctx result device s = Some (tt, s, []) ∧
  static_device_removal_callback ctx result device s = Some (tt, s, []).
Proof.
  intros Hbad.
  unfold static_device_matching_callback, static_device_removal_callback.
  case_bool_decide as Hres; [done|].
  destruct ctx; [done|].
  destruct Hbad as [?|[?| ->]]; [done..|].
  by rewrite matching_eq, removal_eq.
Qed.

Lemma static_callbacks_ignore_bad_delivery_witness :
  static_device_matching_callback example_world context_this (-536870212)%Z 1
    example_tracking = Some (tt, example_tracking, []) ∧
  static_device_removal_callback context_this (-536870212)%Z 1
    example_tracking = Some (tt, example_tracking, []).
Proof.
  apply (static_callbacks_ignore_bad_delivery example_world context_this
           (-536870212)%Z 1 example_tracking).
  left. discriminate.
Defined.

(** X2: an accepted arrival whose identity IOKit cannot resolve is dropped:
    the pre-filter and the query are the only calls, the manager is
    unchanged, nothing is cached and nothing is announced. *)
Theorem arrival_without_identity_is_dropped w device s :
  device ≠ nullptr →
  device_detecting w device = true →
  iokit_find_registry_entry_id w device = None →
  ∃ t,
    device_matching_callback w device s = Some (tt, s, t) ∧
    t = [E_device_detecting device; E_iokit_find_registry_entry_id device] ∧
    detected t = [] ∧
    find_registry_entry_id device s =
      Some (registry_entry_ids_ s !! device, s, []).
Proof.
  intros Hdev Hok Hid. eexists. split.
  - by rewrite matching_eq, bool_decide_false, Hok, Hid.
  - done.
Qed.

Lemma arrival_without_identity_is_dropped_witness :
  ∃ t,
    device_matching_callback example_world 40 example_tracking =
      Some (tt, example_tracking, t) ∧
    t = [E_device_detecting 40; E_iokit_find_registry_entry_id 40] ∧
    detected t = [] ∧
    find_registry_entry_id 40 example_tracking =
      Some (registry_entry_ids_ example_tracking !! 40, example_tracking, []).
Proof.
  apply (arrival_without_identity_is_dropped example_world 40 example_tracking);
    [discriminate | reflexivity | reflexivity].
Defined.

(** ** What a callback leaves alone *)

(** X3: an arrival callback never evicts or replaces anything: every
    logical device of [hids_] stays under its identity, the cache entries
    of the other handles stay, the objects of the store stay as they are (at
    most one is appended), the session and the timer are untouched, and
    [device_removed] is not raised. *)
Theorem arrival_never_evicts w device s :
  ∃ s' t,
    device_matching_callback w device s = Some (tt, s', t) ∧
    (∀ id v, hids_ s !! id = Some v → hids_ s' !! id = Some v) ∧
    (∀ d, d ≠ device → registry_entry_ids_ s' !! d = registry_entry_ids_ s !! d) ∧
    (∃ new, heap s' = heap s ++ new ∧ (length new ≤ 1)%nat ∧
            length (detected t) = length new) ∧
    manager_ s' = manager_ s ∧ refresh_timer_ s' = refresh_timer_ s ∧
    usage_pairs_ s' = usage_pairs_ s ∧
    removed t = [].
Proof.
  rewrite matching_eq.
  assert (∀ t, detected t = [] → removed t = [] →
            ∃ s' t',
              Some (tt, s, t) = Some (tt, s', t') ∧
              (∀ id v, hids_ s !! id = Some v → hids_ s' !! id = Some v) ∧
              (∀ d, d ≠ device →
                    registry_entry_ids_ s' !! d = registry_entry_ids_ s !! d) ∧
              (∃ new, heap s' = heap s ++ new ∧ (length new ≤ 1)%nat ∧
                      length (detected t') = length new) ∧
              manager_ s' = manager_ s ∧ refresh_timer_ s' = refresh_timer_ s ∧
              usage_pairs_ s' = usage_pairs_ s ∧
              removed t' = []) as Hsame.
  { intros t Hdet Hrem. exists s, t. split_and!; try done.
    exists []. rewrite app_nil_r, Hdet. split_and!; [done|simpl; lia|done]. }
  case_bool_decide; [by apply Hsame|].
  destruct (device_detecting w device); cbn [negb]; [|by apply Hsame].
  destruct (iokit_find_registry_entry_id w device) as [id|];
    [|by apply Hsame].
  destruct (hids_ s !! id) as [v|] eqn:Hv; eexists _, _;
    (split; [reflexivity|]);
    cbn [hids_ registry_entry_ids_ heap manager_ refresh_timer_ usage_pairs_];
    split_and!; try done.
  - intros d Hd. by rewrite lookup_insert_ne.
  - exists []. rewrite app_nil_r. split_and!; [done|simpl; lia|done].
  - intros id' v' Hv'. rewrite lookup_insert_ne; [done|]. congruence.
  - intros d Hd. by rewrite lookup_insert_ne.
  - eexists [_]. split_and!; [done|simpl; lia|done].
Qed.

(** X4: a removal callback never adds anything: both maps shrink, no
    object is created, the session and the timer are untouched, IOKit is not
    queried and [device_detected] is not raised; a logical device can only
    leave [hids_] if its identity is the one cached for this handle, and
    [device_removed] is raised at most once. *)
Theorem removal_never_adds device s :
  ∃ s' t,
    device_removal_callback device s = Some (tt, s', t) ∧
    registry_entry_ids_ s' ⊆ registry_entry_ids_ s ∧
    hids_ s' ⊆ hids_ s ∧
    (∀ id, registry_entry_ids_ s !! device ≠ Some id →
           hids_ s' !! id = hids_ s !! id) ∧
    length (heap s') = length (heap s) ∧
    store_extends (heap s) (heap s') ∧
    manager_ s' = manager_ s ∧ refresh_timer_ s' = refresh_timer_ s ∧
    usage_pairs_ s' = usage_pairs_ s ∧
    detected t = [] ∧ os_queries t = [] ∧ (length (removed t) ≤ 1)%nat.
Proof.
  assert (∀ h : list human_interface_device, store_extends h h) as Hrefl.
  { intros h hid obj Hobj. by exists obj. }
  assert (∃ s' t,
            Some (tt, s, @nil event) = Some (tt, s', t) ∧
            registry_entry_ids_ s' ⊆ registry_entry_ids_ s ∧
            hids_ s' ⊆ hids_ s ∧
            (∀ id, registry_entry_ids_ s !! device ≠ Some id →
                   hids_ s' !! id = hids_ s !! id) ∧
            length (heap s') = length (heap s) ∧
            store_extends (heap s) (heap s') ∧
            manager_ s' = manager_ s ∧ refresh_timer_ s' = refresh_timer_ s ∧
            usage_pairs_ s' = usage_pairs_ s ∧
            detected t = [] ∧ os_queries t = [] ∧
            (length (removed t) ≤ 1)%nat) as Hsame.
  { exists s, []. split_and!; try done. simpl. lia. }
  rewrite removal_eq.
  case_bool_decide; [done|].
  destruct (registry_entry_ids_ s !! device) as [id|] eqn:Hc; [|done].
  clear Hsame. cbn zeta. rewrite erase_loop_filter.
  destruct (hids_ s !! id) as [[hid|]|] eqn:Hh; eexists _, _;
    (split; [reflexivity|]);
    cbn [hids_ registry_entry_ids_ heap manager_ refresh_timer_ usage_pairs_];
    split_and!; try done; try apply map_filter_subseteq; simpl; try lia.
  - apply delete_subseteq.
  - intros id' Hne. rewrite lookup_delete_ne; [done|]. congruence.
  - apply length_alter.
  - intros p obj Hobj. rewrite list_lookup_alter.
    case_decide as Hp; [subst p|]; rewrite Hobj; simpl; eauto.
Qed.

(** ** How the callbacks compose *)

Lemma removal_result device s id :
  device ≠ nullptr →
  registry_entry_ids_ s !! device = Some id →
  ∃ s' t,
    device_removal_callback device s = Some (tt, s', t) ∧
    registry_entry_ids_ s' = filter (λ kv, kv.2 ≠ id) (registry_entry_ids_ s).
Proof.
  intros Hdev Hc. rewrite removal_eq, bool_decide_false, Hc by done.
  cbn zeta. rewrite erase_loop_filter.
  destruct (hids_ s !! id) as [[hid|]|]; by eexists _, _.
Qed.

(** X5: after the removal callback of one handle of an identity, the
    removal callback of any handle that was cached with the same identity
    (the same handle again, or another interface of the device) changes
    nothing and raises nothing: the device is announced as removed once,
    however many of its interfaces report removal. *)
Theorem removal_of_sibling_handle_is_noop device sibling s id :
  device ≠ nullptr →
  registry_entry_ids_ s !! device = Some id →
  registry_entry_ids_ s !! sibling = Some id →
  ∃ s' t,
    device_removal_callback device s = Some (tt, s', t) ∧
    device_removal_callback sibling s' = Some (tt, s', []) ∧
    (device_removal_callback device;; device_removal_callback sibling) s =
      Some (tt, s', t).
Proof.
  intros Hdev Hc Hsib.
  destruct (removal_result device s id) as (s' & t & Hrun & Hreg); [done..|].
  assert (device_removal_callback sibling s' = Some (tt, s', [])) as Hnoop.
  { rewrite removal_eq. case_bool_decide; [done|].
    rewrite Hreg, map_lookup_filter_None_2; [done|].
    right. intros x Hx. simpl. intros Hne. congruence. }
  exists s', t. split; [done|]. split; [done|].
  erewrite bind_eq by done. by rewrite Hnoop, app_nil_r.
Qed.

Lemma removal_of_sibling_handle_is_noop_witness :
  ∃ s' t,
    device_removal_callback 1 example_tracking = Some (tt, s', t) ∧
    device_removal_callback 3 s' = Some (tt, s', []) ∧
    (device_removal_callback 1;; device_removal_callback 3) example_tracking =
      Some (tt, s', t).
Proof.
  apply (removal_of_sibling_handle_is_noop 1 3 example_tracking 100);
    [discriminate | reflexivity | reflexivity].
Defined.

(** X6: arrival and then removal of a handle whose identity is neither
    tracked nor cached: [hids_] is as before, the handle is not cached any
    more and the other cache entries are as before; the one object created
    in between is in the store, marked removed, and was announced by
    [device_detected] and then by [device_removed]. *)
Theorem arrival_then_removal_round_trip w device s id :
  device ≠ nullptr →
  device_detecting w device = true →
  iokit_find_registry_entry_id w device = Some id →
  hids_ s !! id = None →
  (∀ d, registry_entry_ids_ s !! d ≠ Some id) →
  ∃ s',
    (device_matching_callback w device;; device_removal_callback device) s =
      Some (tt, s',
            [E_device_detecting device; E_iokit_find_registry_entry_id device;
             E_device_detected (length (heap s));
             E_device_removed (length (heap s))]) ∧
    hids_ s' = hids_ s ∧
    registry_entry_ids_ s' = delete device (registry_entry_ids_ s) ∧
    heap s' = heap s ++ [set_removed (new_device device id)] ∧
    manager_ s' = manager_ s ∧ refresh_timer_ s' = refresh_timer_ s.
Proof.
  intros Hdev Hok Hid Hh Hfresh.
  erewrite bind_eq; last first.
  { rewrite matching_eq, bool_decide_false, Hok, Hid, Hh by done.
    reflexivity. }
  rewrite removal_eq, bool_decide_false by done.
  cbn [registry_entry_ids_ hids_ heap]. rewrite !lookup_insert_eq.
  cbn zeta. rewrite erase_loop_filter.
  eexists. split; [reflexivity|].
  cbn [hids_ registry_entry_ids_ heap manager_ refresh_timer_].
  split_and!; try done.
  - rewrite delete_insert_eq. by apply delete_id.
  - apply map_eq. intros d. rewrite map_lookup_filter.
    destruct (decide (d = device)) as [->|Hd].
    + rewrite lookup_insert_eq, lookup_delete_eq. simpl.
      by rewrite option_guard_False by (simpl; auto).
    + rewrite lookup_insert_ne, lookup_delete_ne by done.
      destruct (registry_entry_ids_ s !! d) as [v|] eqn:Hv; [|done]. simpl.
      rewrite option_guard_True; [done|]. simpl. intros ->.
      by apply (Hfresh d).
  - replace (length (heap s)) with (length (heap s) + 0)%nat by lia.
    by rewrite alter_app_r.
Qed.

Lemma arrival_then_removal_round_trip_witness :
  ∃ s',
    (device_matching_callback example_world 1;; device_removal_callback 1)
      example_started =
      Some (tt, s',
            [E_device_detecting 1; E_iokit_find_registry_entry_id 1;
             E_device_detected 0%nat; E_device_removed 0%nat]) ∧
    hids_ s' = ∅ ∧
    registry_entry_ids_ s' = delete 1 ∅ ∧
    heap s' = [set_removed (new_device 1 100)] ∧
    manager_ s' = 7 ∧ refresh_timer_ s' = Some the_refresh_timer.
Proof.
  apply (arrival_then_removal_round_trip example_world 1 example_started 100);
    [discriminate | reflexivity | reflexivity | reflexivity |].
  intros d. cbn [registry_entry_ids_ example_started].
  by rewrite lookup_empty.
Defined.

(** X7: a logical device is never reused.  When the device of [id] has
    been evicted by the removal callback of [device] and a handle of the
    same identity arrives afterwards, a new object is created and announced:
    it is not the evicted one, which stays marked removed, and [hids_] holds
    the new one. *)
Theorem arrival_after_removal_creates_new_device w device again s id hid obj :
  device ≠ nullptr →
  registry_entry_ids_ s !! device = Some id →
  hids_ s !! id = Some (Some hid) →
  heap s !! hid = Some obj →
  again ≠ nullptr →
  device_detecting w again = true →
  iokit_find_registry_entry_id w again = Some id →
  ∃ s',
    (device_removal_callback device;; device_matching_callback w again) s =
      Some (tt, s',
            [E_device_removed hid; E_device_detecting again;
             E_iokit_find_registry_entry_id again;
             E_device_detected (length (heap s))]) ∧
    length (heap s) ≠ hid ∧
    hids_ s' !! id = Some (Some (length (heap s))) ∧
    heap s' !! hid = Some (set_removed obj) ∧
    heap s' !! length (heap s) = Some (new_device again id) ∧
    registry_entry_ids_ s' !! again = Some id ∧
    registry_entry_ids_ s' !! device =
      (if decide (device = again) then Some id else None).
Proof.
  intros Hdev Hc Hh Hobj Hagain Hok Hid.
  pose proof (lookup_lt_Some _ _ _ Hobj) as Hlt.
  erewrite bind_eq; last first.
  { rewrite removal_eq, bool_decide_false, Hc by done. cbn zeta.
    rewrite Hh, erase_loop_filter. reflexivity. }
  rewrite matching_eq, bool_decide_false, Hok, Hid by done.
  cbn [negb hids_ heap registry_entry_ids_]. rewrite lookup_delete_eq.
  rewrite length_alter.
  eexists. split; [reflexivity|].
  cbn [hids_ registry_entry_ids_ heap].
  split_and!.
  - lia.
  - by rewrite lookup_insert_eq.
  - rewrite lookup_app_l by (by rewrite length_alter).
    by rewrite list_lookup_alter_eq, Hobj.
  - rewrite lookup_app_r by (rewrite length_alter; lia).
    rewrite length_alter. by rewrite Nat.sub_diag.
  - by rewrite lookup_insert_eq.
  - rewrite lookup_insert. destruct (decide (device = again)) as [->|Hne].
    + by rewrite decide_True.
    + rewrite decide_False by done.
      apply map_lookup_filter_None_2. right. intros x Hx. simpl.
      intros Hnx. congruence.
Qed.

Lemma arrival_after_removal_creates_new_device_witness :
  ∃ s',
    (device_removal_callback 1;; device_matching_callback example_world 2)
      example_tracking =
      Some (tt, s',
            [E_device_removed 0%nat; E_device_detecting 2;
             E_iokit_find_registry_entry_id 2; E_device_detected 3%nat]) ∧
    3%nat ≠ 0%nat ∧
    hids_ s' !! 100 = Some (Some 3%nat) ∧
    heap s' !! 0%nat = Some (set_removed (new_device 1 100)) ∧
    heap s' !! 3%nat = Some (new_device 2 100) ∧
    registry_entry_ids_ s' !! 2 = Some 100 ∧
    registry_entry_ids_ s' !! 1 = None.
Proof.
  apply (arrival_after_removal_creates_new_device example_world 1 2
           example_tracking 100 0%nat (new_device 1 100));
    [discriminate | reflexivity | reflexivity | reflexivity
    | discriminate | reflexivity | reflexivity].
Defined.

(** ** The effect of one entry *)

Lemma quiet_projections t :
  quiet t →
  detected t = [] ∧ removed t = [] ∧ scheduled t = [] ∧ unscheduled t = [] ∧
  released t = [].
Proof.
  induction 1 as [|e t He _ IH]; [done|].
  destruct IH as (? & ? & ? & ? & ?).
  destruct e; try discriminate He; by cbn.
Qed.

Lemma quiet_app t1 t2 : quiet t1 → quiet t2 → quiet (t1 ++ t2).
Proof. apply Forall_app_2. Qed.

(** The loop of [refresh_if_needed]: quiet calls, then nothing or [start]. *)
Lemma refresh_loop_result w entries s s' t :
  refresh_loop w entries s = Some (tt, s', t) →
  ∃ pre, quiet pre ∧
    ((s' = s ∧ t = pre) ∨
     (s' = opened w (if bool_decide (manager_ s ≠ nullptr) then stopped s
                     else s) ∧
      t = pre ++ stop_trace s ++ open_trace w s)).
Proof.
  revert t. induction entries as [|[id [hid|]] rest IH]; intros t;
    cbn [refresh_loop].
  - intros [= <- <-]. exists []. split; [constructor|]. by left.
  - erewrite bind_eq by reflexivity.
    destruct (validate w hid); cbn [negb].
    + destruct (refresh_loop w rest s) as [[[[] s1] t1]|] eqn:Hrest; [|done].
      intros [= <- <-].
      destruct (IH _ eq_refl) as (pre & Hpre & Hcases).
      exists (E_validate hid :: pre). split; [by constructor|].
      destruct Hcases as [[-> ->]|[-> ->]]; [by left | by right].
    + erewrite bind_eq by reflexivity. rewrite start_eq.
      intros [= <- <-].
      exists [E_validate hid; E_logger_warn hid].
      split; [by repeat constructor|]. by right.
  - done.
Qed.

(** Every entry does one of seven things. *)
Lemma enter_cases w e s s' t :
  enter w e s = Some (tt, s', t) →
  (s' = s ∧ quiet t) ∨
  (∃ pre, quiet pre ∧
     s' = opened w (if bool_decide (manager_ s ≠ nullptr) then stopped s
                    else s) ∧
     t = pre ++ stop_trace s ++ open_trace w s) ∨
  (s' = stopped s ∧ t = stop_trace s) ∨
  (∃ device id, device ≠ nullptr ∧ is_Some (hids_ s !! id) ∧
     s' = cached device id s ∧
     t = [E_device_detecting device; E_iokit_find_registry_entry_id device]) ∨
  (∃ device id, device ≠ nullptr ∧ hids_ s !! id = None ∧
     s' = cached_and_created device id s ∧
     t = [E_device_detecting device; E_iokit_find_registry_entry_id device;
          E_device_detected (length (heap s))]) ∨
  (∃ device id hid, device ≠ nullptr ∧
     registry_entry_ids_ s !! device = Some id ∧
     hids_ s !! id = Some (Some hid) ∧
     s' = evicted id hid s ∧ t = [E_device_removed hid]) ∨
  (∃ device id, device ≠ nullptr ∧
     registry_entry_ids_ s !! device = Some id ∧
     (hids_ s !! id = None ∨ hids_ s !! id = Some None) ∧
     s' = purged id s ∧ t = []).
Proof.
  assert (∀ t0, quiet t0 → Some (tt, s, t0) = Some (tt, s', t) →
                s' = s ∧ quiet t) as Hsame.
  { intros t0 Hq [= <- <-]. done. }
  assert (quiet []) as Hnil by constructor.
  destruct e as [| |ctx result device|ctx result device|]; cbn [enter].
  - rewrite start_eq. intros [= <- <-]. right. left. exists []. done.
  - rewrite stop_eq. intros [= <- <-]. right. right. by left.
  - unfold static_device_matching_callback.
    case_bool_decide; [left; by eapply Hsame|].
    destruct ctx; [left; by eapply Hsame|].
    rewrite matching_eq.
    case_bool_decide as Hdev; [left; by eapply Hsame|].
    destruct (device_detecting w device); cbn [negb];
      [|left; eapply Hsame; [|done]; by repeat constructor].
    destruct (iokit_find_registry_entry_id w device) as [id|];
      [|left; eapply Hsame; [|done]; by repeat constructor].
    destruct (hids_ s !! id) as [v|] eqn:Hv; intros [= <- <-].
    + do 3 right. left. exists device, id. by rewrite Hv.
    + do 4 right. left. by exists device, id.
  - unfold static_device_removal_callback.
    case_bool_decide; [left; by eapply Hsame|].
    destruct ctx; [left; by eapply Hsame|].
    rewrite removal_eq.
    case_bool_decide as Hdev; [left; by eapply Hsame|].
    destruct (registry_entry_ids_ s !! device) as [id|] eqn:Hc;
      [|left; by eapply Hsame].
    cbn zeta. rewrite erase_loop_filter.
    destruct (hids_ s !! id) as [[hid|]|] eqn:Hh; intros [= <- <-].
    + do 5 right. left. by exists device, id, hid.
    + do 6 right. exists device, id. split_and!; try done. by right.
    + do 6 right. exists device, id. split_and!; try done. by left.
  - unfold refresh_if_needed. erewrite bind_eq by reflexivity.
    destruct (refresh_loop w (hids_order w (hids_ s)) s)
      as [[[[] s1] t1]|] eqn:Hloop; [|done].
    intros [= <- <-].
    destruct (refresh_loop_result _ _ _ _ _ Hloop)
      as (pre & Hpre & [[-> ->]|[-> ->]]).
    + by left.
    + right. left. by exists pre.
Qed.

(** ** What holds of the maps in every reachable state *)

Lemma registry_invariant_enter w e s s' t :
  invariant s → registry_invariant s →
  enter w e s = Some (tt, s', t) → registry_invariant s'.
Proof.
  intros [Hoff Hnonnull] (Hlive & Hcache & Htimer & Hfive) Hrun.
  assert (registry_invariant (stopped s)) as Hstopped.
  { split_and!; cbn [stopped hids_ registry_entry_ids_ manager_ refresh_timer_].
    - intros id hid Hh. by rewrite lookup_empty in Hh.
    - intros d id Hd. by rewrite lookup_empty in Hd.
    - done.
    - done. }
  destruct (enter_cases _ _ _ _ _ Hrun)
    as [[-> _]
       |[(pre & _ & -> & _)
        |[[-> _]
         |[(d & id & Hd & [v Hv] & -> & _)
          |[(d & id & Hd & Hv & -> & _)
           |[(d & id & hid & Hd & Hc & Hh & -> & _)
            |(d & id & Hd & Hc & Hh & -> & _)]]]]]]; clear Hrun.
  - done.
  - assert (∃ s0, (if bool_decide (manager_ s ≠ nullptr) then stopped s else s)
                  = s0 ∧ refresh_timer_ s0 = None ∧
                  registry_entry_ids_ s0 = ∅ ∧ hids_ s0 = ∅)
      as (s0 & -> & Ht0 & Hr0 & Hh0).
    { case_bool_decide as Hm; eexists; (split; [reflexivity|]); [done|].
      by apply Hoff. }
    split_and!; cbn [opened hids_ registry_entry_ids_ manager_ refresh_timer_].
    + intros id hid Hh. by rewrite Hh0, lookup_empty in Hh.
    + intros d id Hd. by rewrite Hr0, lookup_empty in Hd.
    + case_bool_decide as Hcreate; rewrite ?Ht0; by split.
    + intros timer. case_bool_decide as Hcreate; [by rewrite Ht0|].
      by intros [= <-].
  - done.
  - split_and!; cbn [cached hids_ registry_entry_ids_ manager_ refresh_timer_
                      heap]; try done.
    intros d' id'. rewrite lookup_insert. case_decide.
    + intros [= <-]. split; [by subst d'|]. by rewrite Hv.
    + apply Hcache.
  - split_and!;
      cbn [cached_and_created hids_ registry_entry_ids_ manager_
             refresh_timer_ heap]; try done.
    + intros id' hid'. rewrite lookup_insert. case_decide.
      * intros [= <-]. subst id'. exists (new_device d id). split; [|done].
        rewrite lookup_app_r by done. by rewrite Nat.sub_diag.
      * intros (obj & Hobj & ?)%Hlive. exists obj. split; [|done].
        by apply lookup_app_l_Some.
    + intros d' id'. rewrite lookup_insert. case_decide.
      * intros [= <-]. split; [by subst d'|]. by rewrite lookup_insert_eq.
      * intros [Hd' [v' Hv']]%Hcache. split; [done|].
        rewrite lookup_insert. case_decide; eauto.
  - destruct (Hlive _ _ Hh) as (obj & Hobj & Hid & Hrem).
    split_and!;
      cbn [evicted hids_ registry_entry_ids_ manager_ refresh_timer_ heap];
      try done.
    + intros id' hid'. rewrite lookup_delete. case_decide; [done|].
      intros Hh'. destruct (Hlive _ _ Hh') as (obj' & Hobj' & Hid' & Hrem').
      exists obj'. split; [|done].
      rewrite list_lookup_alter_ne; [done|]. intros <-. congruence.
    + intros d' id' [Hd' Hne]%map_lookup_filter_Some. simpl in Hne.
      destruct (Hcache _ _ Hd') as [? ?]. split; [done|].
      by rewrite lookup_delete_ne.
  - split_and!;
      cbn [purged hids_ registry_entry_ids_ manager_ refresh_timer_ heap];
      try done.
    intros d' id' [Hd' Hne]%map_lookup_filter_Some. by apply Hcache.
Qed.

Lemma registry_invariant_new usage_pairs :
  registry_invariant (hid_manager_new usage_pairs).
Proof.
  split_and!; cbn [hid_manager_new hids_ registry_entry_ids_ manager_
                     refresh_timer_]; done.
Qed.

Lemma reachable_registry_invariant s : reachable s → registry_invariant s.
Proof.
  induction 1 as [up|s w e s' t Hreach IH Hen Hrun].
  - apply registry_invariant_new.
  - eapply registry_invariant_enter; [|done..]. by apply reachable_invariant.
Qed.

(** X8: in every reachable state, each entry of the map given out by
    [get_hids] holds a non-null pointer to an object of the store that was
    constructed with the identity it is stored under and is not marked
    removed; two identities never share an object. *)
Theorem reachable_hids_hold_live_devices s id v :
  reachable s →
  get_hids s !! id = Some v →
  ∃ hid obj,
    v = Some hid ∧ heap s !! hid = Some obj ∧
    hid_registry_entry_id obj = id ∧ hid_removed obj = false ∧
    ∀ id', get_hids s !! id' = Some (Some hid) → id' = id.
Proof.
  intros Hreach Hv. unfold get_hids in *.
  destruct (reachable_invariant _ Hreach) as [_ Hnonnull].
  destruct (reachable_registry_invariant _ Hreach) as (Hlive & _).
  destruct (Hnonnull _ _ Hv) as (hid & -> & _).
  destruct (Hlive _ _ Hv) as (obj & Hobj & Hid & Hrem).
  exists hid, obj. split_and!; try done.
  intros id' Hv'. destruct (Hlive _ _ Hv') as (obj' & Hobj' & Hid' & _).
  congruence.
Qed.

Lemma reachable_hids_hold_live_devices_witness :
  ∃ hid obj,
    Some 1%nat = Some hid ∧ heap example_tracking !! hid = Some obj ∧
    hid_registry_entry_id obj = 200 ∧ hid_removed obj = false ∧
    ∀ id', get_hids example_tracking !! id' = Some (Some hid) → id' = 200.
Proof.
  apply (reachable_hids_hold_live_devices example_tracking 200 (Some 1%nat)).
  - apply example_tracking_reachable.
  - reflexivity.
Defined.

(** X9: in every reachable state, a handle in the cache
    [registry_entry_ids_] is not null and the identity cached for it has a
    logical device in [hids_]. *)
Theorem reachable_cache_points_to_devices s device id :
  reachable s →
  registry_entry_ids_ s !! device = Some id →
  device ≠ nullptr ∧ ∃ hid, hids_ s !! id = Some (Some hid).
Proof.
  intros Hreach Hc.
  destruct (reachable_invariant _ Hreach) as [_ Hnonnull].
  destruct (reachable_registry_invariant _ Hreach) as (_ & Hcache & _).
  destruct (Hcache _ _ Hc) as [Hdev [v Hv]]. split; [done|].
  destruct (Hnonnull _ _ Hv) as (hid & -> & _). by exists hid.
Qed.

Lemma reachable_cache_points_to_devices_witness :
  3 ≠ nullptr ∧ ∃ hid, hids_ example_tracking !! 100 = Some (Some hid).
Proof.
  apply (reachable_cache_points_to_devices example_tracking 3 100).
  - apply example_tracking_reachable.
  - reflexivity.
Defined.

(** X10: in a reachable state the removal callback of a cached handle
    always finds a logical device: it evicts it from [hids_], marks it
    removed and raises [device_removed] exactly once; the purge without a
    notification does not occur. *)
Theorem reachable_removal_always_notifies s device id :
  reachable s →
  registry_entry_ids_ s !! device = Some id →
  ∃ hid obj,
    hids_ s !! id = Some (Some hid) ∧
    heap s !! hid = Some obj ∧ hid_removed obj = false ∧
    device_removal_callback device s =
      Some (tt, evicted id hid s, [E_device_removed hid]) ∧
    hids_ (evicted id hid s) !! id = None ∧
    heap (evicted id hid s) !! hid = Some (set_removed obj).
Proof.
  intros Hreach Hc.
  destruct (reachable_cache_points_to_devices _ _ _ Hreach Hc)
    as [Hdev [hid Hh]].
  destruct (reachable_registry_invariant _ Hreach) as (Hlive & _).
  destruct (Hlive _ _ Hh) as (obj & Hobj & _ & Hrem).
  exists hid, obj. split_and!; try done.
  - rewrite removal_eq, bool_decide_false, Hc by done. cbn zeta.
    by rewrite Hh, erase_loop_filter.
  - apply lookup_delete_eq.
  - cbn [evicted heap]. by rewrite list_lookup_alter_eq, Hobj.
Qed.

Lemma reachable_removal_always_notifies_witness :
  ∃ hid obj,
    hids_ example_tracking !! 200 = Some (Some hid) ∧
    heap example_tracking !! hid = Some obj ∧ hid_removed obj = false ∧
    device_removal_callback 11 example_tracking =
      Some (tt, evicted 200 hid example_tracking, [E_device_removed hid]) ∧
    hids_ (evicted 200 hid example_tracking) !! 200 = None ∧
    heap (evicted 200 hid example_tracking) !! hid = Some (set_removed obj).
Proof.
  apply (reachable_removal_always_notifies example_tracking 11 200).
  - apply example_tracking_reachable.
  - reflexivity.
Defined.

(** X11: in every reachable state the refresh timer exists exactly when a
    session is open, it is the timer of five seconds, and a manager without
    a session tracks nothing. *)
Theorem reachable_session_and_timer s :
  reachable s →
  (manager_ s = nullptr ↔ refresh_timer_ s = None) ∧
  (∀ timer, refresh_timer_ s = Some timer →
            timer_start timer = DISPATCH_TIME_NOW ∧
            timer_interval timer = 5000000000 ∧ timer_leeway timer = 0) ∧
  (manager_ s = nullptr →
   registry_entry_ids_ s = ∅ ∧ get_hids s = ∅ ∧
   ∀ ctx result device,
     enabled (os_device_matching ctx result device) s = false ∧
     enabled (os_device_removal ctx result device) s = false ∧
     enabled timer_fired s = false).
Proof.
  intros Hreach.
  destruct (reachable_invariant _ Hreach) as [Hoff _].
  destruct (reachable_registry_invariant _ Hreach) as (_ & _ & Htimer & Hfive).
  split_and!; [done| |].
  - intros timer ->%Hfive. done.
  - intros Hm. destruct (Hoff Hm) as (Ht & Hr & Hh). split_and!; try done.
    intros ctx result device. cbn [enabled]. rewrite Hm, Ht.
    split_and!; apply bool_decide_eq_false; intros Hne; by apply Hne.
Qed.

Lemma reachable_session_and_timer_witness :
  (manager_ example_tracking = nullptr ↔
   refresh_timer_ example_tracking = None) ∧
  (∀ timer, refresh_timer_ example_tracking = Some timer →
            timer_start timer = DISPATCH_TIME_NOW ∧
            timer_interval timer = 5000000000 ∧ timer_leeway timer = 0) ∧
  (manager_ example_tracking = nullptr →
   registry_entry_ids_ example_tracking = ∅ ∧ get_hids example_tracking = ∅ ∧
   ∀ ctx result device,
     enabled (os_device_matching ctx result device) example_tracking = false ∧
     enabled (os_device_removal ctx result device) example_tracking = false ∧
     enabled timer_fired example_tracking = false).
Proof.
  apply (reachable_session_and_timer example_tracking).
  apply example_tracking_reachable.
Defined.

(** ** The reconciliation pass on a healthy registry *)

Lemma omap_snd_NoDup {K A} (l : list (K * option A)) :
  NoDup l →
  (∀ k1 k2 a, (k1, Some a) ∈ l → (k2, Some a) ∈ l → k1 = k2) →
  NoDup (omap snd l).
Proof.
  induction 1 as [|[k [a|]] l Hnotin Hnodup IH]; intros Hinj; cbn.
  - constructor.
  - constructor.
    + intros ([k' v'] & Hin & Hv')%list_elem_of_omap. simpl in Hv'. subst v'.
      assert (k = k') as <-.
      { apply (Hinj k k' a); [by left | by right]. }
      done.
    + apply IH. intros k1 k2 a' H1 H2. apply (Hinj k1 k2 a'); by right.
  - apply IH. intros k1 k2 a' H1 H2. apply (Hinj k1 k2 a'); by right.
Qed.

Lemma omap_snd_length {K A} (l : list (K * option A)) :
  Forall (λ e, is_Some e.2) l → length (omap snd l) = length l.
Proof.
  induction 1 as [|[k v] l [a Ha] _ IH]; [done|].
  simpl in Ha. subst v. cbn. by rewrite IH.
Qed.

Lemma scanned_spec w s hid :
  hid ∈ scanned w s ↔ ∃ id, hids_ s !! id = Some (Some hid).
Proof.
  unfold scanned. rewrite list_elem_of_omap. split.
  - intros ([id v] & Hin & Hv). simpl in Hv. subst v.
    rewrite (hids_order_visits_each_once w (hids_ s)) in Hin.
    apply elem_of_map_to_list in Hin. by exists id.
  - intros [id Hid]. exists (id, Some hid). split; [|done].
    rewrite (hids_order_visits_each_once w (hids_ s)).
    by apply elem_of_map_to_list.
Qed.

(** X12: a reconciliation pass in a reachable state in which every tracked
    device validates changes nothing: whatever the order in which the
    range-for visits [hids_], the pass validates each object held by
    [hids_] exactly once, in that order, and makes no other call (with an
    empty [hids_], no call at all). *)
Theorem refresh_of_valid_devices_changes_nothing w s :
  reachable s →
  (∀ id hid, hids_ s !! id = Some (Some hid) → validate w hid = true) →
  refresh_if_needed w s = Some (tt, s, E_validate <$> scanned w s) ∧
  NoDup (scanned w s) ∧
  length (scanned w s) = size (hids_ s) ∧
  (∀ hid, hid ∈ scanned w s ↔ ∃ id, hids_ s !! id = Some (Some hid)) ∧
  scanned w s ≡ₚ omap snd (map_to_list (hids_ s)) ∧
  (hids_ s = ∅ → refresh_if_needed w s = Some (tt, s, [])).
Proof.
  intros Hreach Hvalid.
  destruct (reachable_invariant _ Hreach) as [_ Hnonnull].
  destruct (reachable_registry_invariant _ Hreach) as (Hlive & _).
  pose proof (hids_order_visits_each_once w (hids_ s)) as Hperm.
  assert (∀ id v, (id, v) ∈ hids_order w (hids_ s) → hids_ s !! id = Some v)
    as Hin_order.
  { intros id v Hin. rewrite Hperm in Hin. by apply elem_of_map_to_list. }
  assert (refresh_if_needed w s = Some (tt, s, E_validate <$> scanned w s))
    as Hrun.
  { unfold refresh_if_needed. erewrite bind_eq by reflexivity.
    rewrite refresh_loop_all_valid; [done|].
    apply Forall_forall. intros [id v] Hin%Hin_order.
    destruct (Hnonnull _ _ Hin) as (hid & -> & _). exists hid.
    split; [done|]. by apply (Hvalid id). }
  split_and!; [done| | |apply scanned_spec| |].
  - apply omap_snd_NoDup.
    + rewrite Hperm. apply NoDup_map_to_list.
    + intros k1 k2 hid H1%Hin_order H2%Hin_order.
      destruct (Hlive _ _ H1) as (o1 & Ho1 & <- & _).
      destruct (Hlive _ _ H2) as (o2 & Ho2 & <- & _). congruence.
  - unfold scanned. rewrite omap_snd_length.
    + by rewrite Hperm, length_map_to_list.
    + apply Forall_forall. intros [id v] Hin%Hin_order.
      destruct (Hnonnull _ _ Hin) as (hid & -> & _). by eexists.
  - unfold scanned. by rewrite Hperm.
  - intros Hempty. rewrite Hrun. unfold scanned.
    rewrite Hempty in Hperm |- *. rewrite map_to_list_empty in Hperm.
    by apply Permutation_nil_r in Hperm as ->.
Qed.

Lemma refresh_of_valid_devices_changes_nothing_witness :
  refresh_if_needed healthy_world example_tracking =
    Some (tt, example_tracking,
          E_validate <$> scanned healthy_world example_tracking) ∧
  NoDup (scanned healthy_world example_tracking) ∧
  length (scanned healthy_world example_tracking) =
    size (hids_ example_tracking) ∧
  (∀ hid, hid ∈ scanned healthy_world example_tracking ↔
          ∃ id, hids_ example_tracking !! id = Some (Some hid)) ∧
  scanned healthy_world example_tracking ≡ₚ
    omap snd (map_to_list (hids_ example_tracking)) ∧
  (hids_ example_tracking = ∅ →
   refresh_if_needed healthy_world example_tracking =
     Some (tt, example_tracking, [])).
Proof.
  apply (refresh_of_valid_devices_changes_nothing healthy_world
           example_tracking).
  - apply example_tracking_reachable.
  - reflexivity.
Defined.

(** X13: from a reachable state every entry into the class returns: the
    null check that the loop of [refresh_if_needed] omits before
    [hid.second->validate()] is never needed, since [hids_] holds no null
    pointer. *)
Theorem reachable_entries_return w e s :
  reachable s →
  ∃ s' t, enter w e s = Some (tt, s', t) ∧
          (enabled e s = true → reachable s').
Proof.
  intros Hreach.
  assert (∃ s' t, enter w e s = Some (tt, s', t)) as (s' & t & Hrun).
  { destruct e as [| |ctx result device|ctx result device|]; cbn [enter].
    - rewrite start_eq. by eexists _, _.
    - rewrite stop_eq. by eexists _, _.
    - unfold static_device_matching_callback.
      case_bool_decide; [by eexists _, _|].
      destruct ctx; [by eexists _, _|].
      destruct (arrival_never_evicts w device s) as (s' & t & -> & _).
      by eexists _, _.
    - unfold static_device_removal_callback.
      case_bool_decide; [by eexists _, _|].
      destruct ctx; [by eexists _, _|].
      destruct (removal_never_adds device s) as (s' & t & -> & _).
      by eexists _, _.
    - destruct (reachable_invariant _ Hreach) as [_ Hnonnull].
      unfold refresh_if_needed. erewrite bind_eq by reflexivity.
      assert (Forall (λ e, is_Some e.2) (hids_order w (hids_ s))) as Hall.
      { apply Forall_forall. intros [id v] Hin.
        rewrite (hids_order_visits_each_once w (hids_ s)) in Hin.
        apply elem_of_map_to_list in Hin.
        destruct (Hnonnull _ _ Hin) as (hid & -> & _). by eexists. }
      induction Hall as [|[id v] l [hid Hv] _ IH]; cbn [refresh_loop].
      + by eexists _, _.
      + simpl in Hv. subst v. erewrite bind_eq by reflexivity.
        destruct (validate w hid); cbn [negb].
        * destruct IH as (s' & t & Hrest).
          destruct (refresh_loop w l s) as [[[[] s1] t1]|]; [|done].
          by eexists _, _.
        * erewrite bind_eq by reflexivity. rewrite start_eq.
          by eexists _, _. }
  exists s', t. split; [done|].
  intros Hen. by eapply reachable_enter.
Qed.

Lemma reachable_entries_return_witness :
  ∃ s' t, enter example_world timer_fired example_tracking = Some (tt, s', t) ∧
          (enabled timer_fired example_tracking = true → reachable s').
Proof.
  apply (reachable_entries_return example_world timer_fired example_tracking).
  apply example_tracking_reachable.
Defined.

(** Outside the reachable states the loop does run into the null pointer. *)
Example refresh_of_null_pointer_is_undefined :
  refresh_if_needed example_world
    {| usage_pairs_ := []; manager_ := 7; registry_entry_ids_ := ∅;
       hids_ := {[100 := None]}; refresh_timer_ := Some the_refresh_timer;
       heap := [] |} = None.
Proof. vm_compute. reflexivity. Qed.

(** ** Whole runs: notifications *)

Lemma removed_app t1 t2 : removed (t1 ++ t2) = removed t1 ++ removed t2.
Proof. apply omap_app. Qed.

Lemma scheduled_app t1 t2 : scheduled (t1 ++ t2) = scheduled t1 ++ scheduled t2.
Proof. apply omap_app. Qed.

Lemma unscheduled_app t1 t2 :
  unscheduled (t1 ++ t2) = unscheduled t1 ++ unscheduled t2.
Proof. apply omap_app. Qed.

Lemma released_app t1 t2 : released (t1 ++ t2) = released t1 ++ released t2.
Proof. apply omap_app. Qed.

Lemma lifecycle_trace_is_silent w s :
  detected (stop_trace s ++ open_trace w s) = [] ∧
  removed (stop_trace s ++ open_trace w s) = [] ∧
  os_queries (stop_trace s ++ open_trace w s) = [].
Proof.
  unfold stop_trace, open_trace. by repeat case_bool_decide.
Qed.

(** What one entry does to the store and which devices it announces. *)
Lemma enter_store w e s s' t :
  enter w e s = Some (tt, s', t) →
  (heap s' = heap s ∧ detected t = [] ∧ removed t = []) ∨
  (∃ device id,
     heap s' = heap s ++ [new_device device id] ∧
     detected t = [length (heap s)] ∧ removed t = []) ∨
  (∃ id hid,
     hids_ s !! id = Some (Some hid) ∧
     heap s' = alter set_removed hid (heap s) ∧
     t = [E_device_removed hid]).
Proof.
  intros Hrun.
  destruct (enter_cases _ _ _ _ _ Hrun)
    as [[-> Hq]
       |[(pre & Hq & -> & ->)
        |[[-> ->]
         |[(d & id & Hd & _ & -> & ->)
          |[(d & id & Hd & Hv & -> & ->)
           |[(d & id & hid & Hd & Hc & Hh & -> & ->)
            |(d & id & Hd & Hc & Hh & -> & ->)]]]]]].
  - left. by destruct (quiet_projections _ Hq) as (? & ? & _).
  - left. destruct (quiet_projections _ Hq) as (Hdet & Hrem & _).
    destruct (lifecycle_trace_is_silent w s) as (Hdet' & Hrem' & _).
    rewrite detected_app, removed_app, Hdet, Hrem, Hdet', Hrem'.
    split; [|done]. cbn [opened heap]. by case_bool_decide.
  - left. split; [done|]. unfold stop_trace. by case_bool_decide.
  - by left.
  - right. left. by exists d, id.
  - right. right. by exists id, hid.
  - by left.
Qed.

Lemma split_at_removed t t' t1 hid t2 :
  t ++ t' = t1 ++ E_device_removed hid :: t2 →
  (∃ k, t = t1 ++ E_device_removed hid :: k) ∨
  (∃ k, t1 = t ++ k ∧ t' = k ++ E_device_removed hid :: t2).
Proof.
  intros [(k & -> & Hk)|(k & -> & ->)]%app_eq_inv.
  - destruct k as [|x k].
    + right. exists []. rewrite !app_nil_r. by simpl in Hk.
    + left. injection Hk as <- ->. by exists k.
  - right. by exists k.
Qed.

Lemma removed_elem_of t hid : E_device_removed hid ∈ t → hid ∈ removed t.
Proof.
  intros Hin. apply list_elem_of_omap. by exists (E_device_removed hid).
Qed.

Lemma detected_elem_of t hid : hid ∈ detected t ↔ E_device_detected hid ∈ t.
Proof.
  unfold detected. rewrite list_elem_of_omap. split.
  - intros (e & Hin & He). destruct e; try discriminate He.
    by injection He as ->.
  - intros Hin. by exists (E_device_detected hid).
Qed.

(** The bookkeeping of a run from a new manager. *)
Lemma reaches_notifications usage_pairs s t :
  reaches (hid_manager_new usage_pairs) s t →
  reachable s ∧
  detected t = seq 0 (length (heap s)) ∧
  NoDup (removed t) ∧
  (∀ hid, hid ∈ removed t ↔
          ∃ obj, heap s !! hid = Some obj ∧ hid_removed obj = true) ∧
  (∀ t1 hid t2, t = t1 ++ E_device_removed hid :: t2 → hid ∈ detected t1).
Proof.
  induction 1 as [|s t w e s' t' _ IH Hen Hrun].
  { split_and!; try done.
    - constructor.
    - constructor.
    - intros hid. split; [by intros ?%elem_of_nil|].
      by intros (obj & Hobj & _).
    - intros t1 hid t2 Heq. by destruct t1. }
  destruct IH as (Hreach & Hdet & Hnodup & Hflags & Hord).
  split; [by eapply reachable_enter|].
  destruct (reachable_registry_invariant _ Hreach) as (Hlive & _).
  rewrite detected_app, removed_app.
  destruct (enter_store _ _ _ _ _ Hrun)
    as [(Hheap & Hd & Hr)
       |[(d & id & Hheap & Hd & Hr)|(id & hid & Hh & Hheap & ->)]].
  - rewrite Hheap, Hd, Hr, !app_nil_r. split_and!; try done.
    intros t1 hid t2 [[k ->]|(k & -> & ->)]%split_at_removed.
    + by eapply Hord.
    + exfalso. assert (hid ∈ removed (k ++ E_device_removed hid :: t2)) as Hin.
      { apply removed_elem_of, elem_of_app. right. by left. }
      rewrite Hr in Hin. by apply elem_of_nil in Hin.
  - rewrite Hheap, Hd, Hr, app_nil_r, length_app, Hdet. cbn [length].
    rewrite Nat.add_1_r, seq_S. split_and!; try done.
    + intros hid. rewrite Hflags. split; intros (obj & Hobj & Hrem).
      * exists obj. split; [|done]. by apply lookup_app_l_Some.
      * apply lookup_snoc_Some in Hobj as [[_ Hobj]|[_ <-]]; [|done].
        by exists obj.
    + intros t1 hid t2 [[k ->]|(k & -> & ->)]%split_at_removed.
      * by eapply Hord.
      * exfalso.
        assert (hid ∈ removed (k ++ E_device_removed hid :: t2)) as Hin.
        { apply removed_elem_of, elem_of_app. right. by left. }
        rewrite Hr in Hin. by apply elem_of_nil in Hin.
  - destruct (Hlive _ _ Hh) as (obj & Hobj & _ & Hfalse).
    change (detected [E_device_removed hid]) with (@nil nat).
    change (removed [E_device_removed hid]) with [hid].
    rewrite Hheap, length_alter, app_nil_r.
    assert (hid ∉ removed t) as Hfresh.
    { intros (obj' & Hobj' & Htrue)%Hflags. congruence. }
    assert (hid ∈ detected t) as Hknown.
    { rewrite Hdet. apply elem_of_seq. apply lookup_lt_Some in Hobj. lia. }
    split_and!; try done.
    + apply NoDup_app. split_and!; [done| |apply NoDup_singleton].
      intros x Hx ->%list_elem_of_singleton. done.
    + intros p. rewrite elem_of_app, list_elem_of_singleton, Hflags.
      rewrite list_lookup_alter. split.
      * intros [(obj' & Hobj' & Htrue)| ->].
        -- case_decide as Hp; [subst p|]; rewrite Hobj'; simpl; eauto.
        -- rewrite decide_True by done. rewrite Hobj. simpl. eauto.
      * intros (obj' & Hobj' & Htrue). case_decide as Hp; [by right|].
        left. eauto.
    + intros t1 p t2 [[k ->]|(k & -> & Hk)]%split_at_removed.
      * by eapply Hord.
      * destruct k as [|x k]; [|by destruct k].
        injection Hk as <- <-. by rewrite app_nil_r.
Qed.

Lemma reaches_enter_eq s0 s t w e s' t' tt' :
  reaches s0 s t → enabled e s = true → enter w e s = Some (tt, s', t') →
  tt' = t ++ t' → reaches s0 s' tt'.
Proof. intros ? ? ? ->. by eapply reaches_enter. Qed.

Lemma reaches_arrival_created s0 s t w device id :
  reaches s0 s t →
  manager_ s ≠ nullptr → device ≠ nullptr →
  device_detecting w device = true →
  iokit_find_registry_entry_id w device = Some id →
  hids_ s !! id = None →
  reaches s0 (cached_and_created device id s)
    (t ++ [E_device_detecting device; E_iokit_find_registry_entry_id device;
           E_device_detected (length (heap s))]).
Proof.
  intros Hs Hm Hdev Hok Hid Hh.
  apply (reaches_enter s0 s t w
           (os_device_matching context_this kIOReturnSuccess device));
    [done | by apply bool_decide_eq_true |].
  cbn [enter]. unfold static_device_matching_callback.
  rewrite bool_decide_false by (intros Hne; by apply Hne).
  by rewrite matching_eq, bool_decide_false, Hok, Hid, Hh.
Qed.

Lemma reaches_arrival_known s0 s t w device id :
  reaches s0 s t →
  manager_ s ≠ nullptr → device ≠ nullptr →
  device_detecting w device = true →
  iokit_find_registry_entry_id w device = Some id →
  is_Some (hids_ s !! id) →
  reaches s0 (cached device id s)
    (t ++ [E_device_detecting device; E_iokit_find_registry_entry_id device]).
Proof.
  intros Hs Hm Hdev Hok Hid [v Hh].
  apply (reaches_enter s0 s t w
           (os_device_matching context_this kIOReturnSuccess device));
    [done | by apply bool_decide_eq_true |].
  cbn [enter]. unfold static_device_matching_callback.
  rewrite bool_decide_false by (intros Hne; by apply Hne).
  by rewrite matching_eq, bool_decide_false, Hok, Hid, Hh.
Qed.

Lemma reaches_eq s0 s t s' t' :
  reaches s0 s t → s' = s → t' = t → reaches s0 s' t'.
Proof. by intros ? -> ->. Qed.

Lemma example_tracking_reaches :
  reaches (hid_manager_new example_usage_pairs) example_tracking example_trace.
Proof.
  assert (reaches (hid_manager_new example_usage_pairs) example_started
            (open_trace example_world (hid_manager_new example_usage_pairs)))
    as H0.
  { apply (reaches_enter_eq _ (hid_manager_new example_usage_pairs) []
             example_world call_start example_started
             (open_trace example_world (hid_manager_new example_usage_pairs)));
      [apply reaches_nil | reflexivity | vm_compute; reflexivity
      | reflexivity]. }
  pose proof (reaches_arrival_created _ _ _ example_world 1 100 H0) as H1.
  specialize (H1 ltac:(done) ltac:(done) eq_refl eq_refl eq_refl).
  pose proof (reaches_arrival_known _ _ _ example_world 2 100 H1) as H2.
  specialize (H2 ltac:(done) ltac:(done) eq_refl eq_refl
                 ltac:(vm_compute; eauto)).
  pose proof (reaches_arrival_known _ _ _ example_world 3 100 H2) as H3.
  specialize (H3 ltac:(done) ltac:(done) eq_refl eq_refl
                 ltac:(vm_compute; eauto)).
  pose proof (reaches_arrival_created _ _ _ example_world 11 200 H3) as H4.
  specialize (H4 ltac:(done) ltac:(done) eq_refl eq_refl
                 ltac:(vm_compute; reflexivity)).
  pose proof (reaches_arrival_created _ _ _ example_world 21 300 H4) as H5.
  specialize (H5 ltac:(done) ltac:(done) eq_refl eq_refl
                 ltac:(vm_compute; reflexivity)).
  apply (reaches_eq _ _ _ _ _ H5); vm_compute; reflexivity.
Qed.

(** X14: along every run from a new manager, [device_detected] is raised
    exactly once for each object ever created and for nothing else, in the
    order of creation. *)
Theorem every_device_is_announced_once usage_pairs s t :
  reaches (hid_manager_new usage_pairs) s t →
  detected t = seq 0 (length (heap s)) ∧
  NoDup (detected t) ∧
  (∀ hid, hid ∈ detected t ↔ is_Some (heap s !! hid)) ∧
  (∀ id hid, hids_ s !! id = Some (Some hid) → E_device_detected hid ∈ t).
Proof.
  intros Hrun.
  destruct (reaches_notifications _ _ _ Hrun) as (Hreach & Hdet & _).
  destruct (reachable_invariant _ Hreach) as [_ Hnonnull].
  rewrite Hdet. split_and!; [done|apply NoDup_seq| |].
  - intros hid. rewrite elem_of_seq, lookup_lt_is_Some. lia.
  - intros id hid Hh. apply detected_elem_of. rewrite Hdet.
    destruct (Hnonnull _ _ Hh) as (hid' & [= <-] & Hlt).
    apply elem_of_seq. lia.
Qed.

Lemma every_device_is_announced_once_witness :
  detected example_trace = seq 0 (length (heap example_tracking)) ∧
  NoDup (detected example_trace) ∧
  (∀ hid, hid ∈ detected example_trace ↔
          is_Some (heap example_tracking !! hid)) ∧
  (∀ id hid, hids_ example_tracking !! id = Some (Some hid) →
             E_device_detected hid ∈ example_trace).
Proof.
  apply (every_device_is_announced_once example_usage_pairs example_tracking
           example_trace).
  apply example_tracking_reaches.
Defined.

(** X15: along every run from a new manager, [device_removed] is raised at
    most once per object, exactly for the objects that are marked removed,
    and only after [device_detected] was raised for the same object; the
    objects held by [hids_] have been announced and not removed. *)
Theorem removals_follow_detections usage_pairs s t :
  reaches (hid_manager_new usage_pairs) s t →
  NoDup (removed t) ∧
  (∀ hid, hid ∈ removed t ↔
          ∃ obj, heap s !! hid = Some obj ∧ hid_removed obj = true) ∧
  (∀ t1 hid t2, t = t1 ++ E_device_removed hid :: t2 →
                E_device_detected hid ∈ t1) ∧
  (∀ id hid, hids_ s !! id = Some (Some hid) →
             hid ∈ detected t ∧ hid ∉ removed t).
Proof.
  intros Hrun.
  destruct (reaches_notifications _ _ _ Hrun)
    as (Hreach & Hdet & Hnodup & Hflags & Hord).
  destruct (reachable_registry_invariant _ Hreach) as (Hlive & _).
  split_and!; [done|done| |].
  - intros t1 hid t2 Heq. apply detected_elem_of. by eapply Hord.
  - intros id hid Hh. destruct (Hlive _ _ Hh) as (obj & Hobj & _ & Hfalse).
    split.
    + rewrite Hdet. apply elem_of_seq. apply lookup_lt_Some in Hobj. lia.
    + intros (obj' & Hobj' & Htrue)%Hflags. congruence.
Qed.

Lemma removals_follow_detections_witness :
  NoDup (removed example_trace) ∧
  (∀ hid, hid ∈ removed example_trace ↔
          ∃ obj, heap example_tracking !! hid = Some obj ∧
                 hid_removed obj = true) ∧
  (∀ t1 hid t2, example_trace = t1 ++ E_device_removed hid :: t2 →
                E_device_detected hid ∈ t1) ∧
  (∀ id hid, hids_ example_tracking !! id = Some (Some hid) →
             hid ∈ detected example_trace ∧ hid ∉ removed example_trace).
Proof.
  apply (removals_follow_detections example_usage_pairs example_tracking
           example_trace).
  apply example_tracking_reaches.
Defined.

(** ** Whole runs: sessions, the filter and the store *)

Lemma lifecycle_trace_sessions w s :
  scheduled (stop_trace s ++ open_trace w s) =
    (if bool_decide (IOHIDManagerCreate w = nullptr) then []
     else [IOHIDManagerCreate w]) ∧
  unscheduled (stop_trace s ++ open_trace w s) =
    (if bool_decide (manager_ s = nullptr) then [] else [manager_ s]).
Proof.
  unfold stop_trace, open_trace.
  destruct (decide (manager_ s = nullptr)) as [Hm|Hm];
    [rewrite (bool_decide_false (manager_ s ≠ nullptr)) by (by intros ?);
     rewrite (bool_decide_true (manager_ s = nullptr)) by done
    |rewrite (bool_decide_true (manager_ s ≠ nullptr)) by done;
     rewrite (bool_decide_false (manager_ s = nullptr)) by done];
    by repeat case_bool_decide.
Qed.

(** What one entry does to the session. *)
Lemma enter_session w e s s' t :
  enter w e s = Some (tt, s', t) →
  (manager_ s' = manager_ s ∧ scheduled t = [] ∧ unscheduled t = []) ∨
  (scheduled t =
     (if bool_decide (manager_ s' = nullptr) then [] else [manager_ s']) ∧
   unscheduled t =
     (if bool_decide (manager_ s = nullptr) then [] else [manager_ s])).
Proof.
  intros Hrun.
  destruct (enter_cases _ _ _ _ _ Hrun)
    as [[-> Hq]
       |[(pre & Hq & -> & ->)
        |[[-> ->]
         |[(d & id & Hd & _ & -> & ->)
          |[(d & id & Hd & Hv & -> & ->)
           |[(d & id & hid & Hd & Hc & Hh & -> & ->)
            |(d & id & Hd & Hc & Hh & -> & ->)]]]]]]; clear Hrun.
  - left. by destruct (quiet_projections _ Hq) as (_ & _ & ? & ? & _).
  - right. destruct (quiet_projections _ Hq) as (_ & _ & Hs & Hu & _).
    destruct (lifecycle_trace_sessions w s) as [Hs' Hu'].
    by rewrite scheduled_app, unscheduled_app, Hs, Hu, Hs', Hu'.
  - right. unfold stop_trace. cbn [stopped manager_].
    destruct (decide (manager_ s = nullptr)) as [Hm|Hm].
    + rewrite (bool_decide_false (manager_ s ≠ nullptr)) by (by intros ?).
      by rewrite (bool_decide_true (manager_ s = nullptr)).
    + rewrite (bool_decide_true (manager_ s ≠ nullptr)) by done.
      by rewrite (bool_decide_false (manager_ s = nullptr)).
  - by left.
  - by left.
  - by left.
  - by left.
Qed.

(** X16: along every run from a new manager the sessions put on the run
    loop are taken off it again in the same order, one at a time: the
    sessions scheduled so far are the sessions unscheduled so far followed
    by the open session, if there is one; a null session is never
    scheduled. *)
Theorem run_loop_scheduling_is_balanced usage_pairs s t :
  reaches (hid_manager_new usage_pairs) s t →
  scheduled t =
    unscheduled t ++
    (if bool_decide (manager_ s = nullptr) then [] else [manager_ s]) ∧
  nullptr ∉ scheduled t.
Proof.
  induction 1 as [|s t w e s' t' _ [IH Hnull] Hen Hrun].
  { split; [done|]. by intros ?%elem_of_nil. }
  rewrite scheduled_app, unscheduled_app, IH.
  destruct (enter_session _ _ _ _ _ Hrun) as [(-> & -> & ->)|[-> ->]].
  - rewrite !app_nil_r. split; [done|]. by rewrite <-IH.
  - split; [by rewrite <-!(assoc_L (++))|].
    rewrite <-IH. intros [?|Hin]%elem_of_app; [done|].
    case_bool_decide as Hm; [by apply elem_of_nil in Hin|].
    by apply list_elem_of_singleton in Hin.
Qed.

Lemma run_loop_scheduling_is_balanced_witness :
  scheduled example_trace =
    unscheduled example_trace ++
    (if bool_decide (manager_ example_tracking = nullptr) then []
     else [manager_ example_tracking]) ∧
  nullptr ∉ scheduled example_trace.
Proof.
  apply (run_loop_scheduling_is_balanced example_usage_pairs example_tracking
           example_trace).
  apply example_tracking_reaches.
Defined.

Lemma store_extends_refl h : store_extends h h.
Proof. intros hid obj Hobj. by exists obj. Qed.

Lemma store_extends_trans h1 h2 h3 :
  store_extends h1 h2 → store_extends h2 h3 → store_extends h1 h3.
Proof.
  intros H12 H23 hid obj Hobj.
  destruct (H12 _ _ Hobj) as (obj2 & Hobj2 & Hd2 & Hi2 & Hr2).
  destruct (H23 _ _ Hobj2) as (obj3 & Hobj3 & Hd3 & Hi3 & Hr3).
  exists obj3. split_and!; [done|congruence|congruence|auto].
Qed.

(** X17: whatever is done with a manager, the filter specification
    [usage_pairs_] stays the one given to the constructor, and the objects
    created so far stay in the store at their place, with the handle and
    the identity they were created with; an object marked removed stays
    marked removed. *)
Theorem runs_keep_filter_and_objects s0 s t :
  reaches s0 s t →
  usage_pairs_ s = usage_pairs_ s0 ∧
  store_extends (heap s0) (heap s) ∧
  (length (heap s0) ≤ length (heap s))%nat.
Proof.
  induction 1 as [|s t w e s' t' _ (Hup & Hstore & Hlen) Hen Hrun].
  { split_and!; [done|apply store_extends_refl|done]. }
  assert (usage_pairs_ s' = usage_pairs_ s) as Hup'.
  { destruct (enter_cases _ _ _ _ _ Hrun)
      as [[-> _]
         |[(pre & _ & -> & _)
          |[[-> _]
           |[(d & id & _ & _ & -> & _)
            |[(d & id & _ & _ & -> & _)
             |[(d & id & hid & _ & _ & _ & -> & _)
              |(d & id & _ & _ & _ & -> & _)]]]]]]; try done.
    cbn [opened usage_pairs_]. by case_bool_decide. }
  assert (store_extends (heap s) (heap s') ∧
          (length (heap s) ≤ length (heap s'))%nat) as [Hstep Hlen'].
  { destruct (enter_store _ _ _ _ _ Hrun)
      as [(-> & _)|[(d & id & -> & _)|(id & hid & _ & -> & _)]].
    - split; [apply store_extends_refl|done].
    - split; [|rewrite length_app; lia].
      intros p obj Hobj. exists obj. split; [|done].
      by apply lookup_app_l_Some.
    - split; [|by rewrite length_alter].
      intros p obj Hobj. rewrite list_lookup_alter.
      case_decide as Hp; [subst p|]; rewrite Hobj; simpl; eauto. }
  split_and!; [congruence| |lia]. by eapply store_extends_trans.
Qed.

Lemma runs_keep_filter_and_objects_witness :
  usage_pairs_ example_tracking =
    usage_pairs_ (hid_manager_new example_usage_pairs) ∧
  store_extends (heap (hid_manager_new example_usage_pairs))
    (heap example_tracking) ∧
  (length (heap (hid_manager_new example_usage_pairs)) ≤
   length (heap example_tracking))%nat.
Proof.
  apply (runs_keep_filter_and_objects (hid_manager_new example_usage_pairs)
           example_tracking example_trace).
  apply example_tracking_reaches.
Defined.

(** X18: [start], [stop] and the reconciliation pass announce nothing:
    they raise neither [device_detected] nor [device_removed] and leave
    every object as it is, so the devices they drop from [hids_] are dropped
    without a removal notification and without being marked removed; after
    them [hids_] is either as before or empty. *)
Theorem rebuild_is_silent w e s s' t :
  e = call_start ∨ e = call_stop ∨ e = timer_fired →
  enter w e s = Some (tt, s', t) →
  detected t = [] ∧ removed t = [] ∧ heap s' = heap s ∧
  (hids_ s' = hids_ s ∨ hids_ s' = ∅) ∧
  (registry_entry_ids_ s' = registry_entry_ids_ s ∨ registry_entry_ids_ s' = ∅).
Proof.
  assert (∀ pre, quiet pre →
            detected (pre ++ stop_trace s ++ open_trace w s) = [] ∧
            removed (pre ++ stop_trace s ++ open_trace w s) = []) as Hsilent.
  { intros pre Hq. destruct (quiet_projections _ Hq) as (Hdet & Hrem & _).
    destruct (lifecycle_trace_is_silent w s) as (Hdet' & Hrem' & _).
    by rewrite detected_app, removed_app, Hdet, Hrem, Hdet', Hrem'. }
  assert (∀ s0 : hid_manager,
            s0 = opened w (if bool_decide (manager_ s ≠ nullptr)
                           then stopped s else s) →
            heap s0 = heap s ∧
            (hids_ s0 = hids_ s ∨ hids_ s0 = ∅) ∧
            (registry_entry_ids_ s0 = registry_entry_ids_ s ∨
             registry_entry_ids_ s0 = ∅)) as Hopened.
  { intros s0 ->. cbn [opened heap hids_ registry_entry_ids_].
    case_bool_decide; split_and!; auto. }
  intros [-> | [-> | ->]]; cbn [enter].
  - rewrite start_eq. intros [= <- <-].
    destruct (Hsilent [] ltac:(constructor)) as [? ?].
    destruct (Hopened _ eq_refl) as (? & ? & ?). done.
  - rewrite stop_eq. intros [= <- <-]. unfold stop_trace.
    case_bool_decide; split_and!; auto.
  - unfold refresh_if_needed. erewrite bind_eq by reflexivity.
    destruct (refresh_loop w (hids_order w (hids_ s)) s)
      as [[[[] s1] t1]|] eqn:Hloop; [|done].
    intros [= <- <-].
    destruct (refresh_loop_result _ _ _ _ _ Hloop)
      as (pre & Hq & [[-> ->]|[-> ->]]).
    + destruct (quiet_projections _ Hq) as (? & ? & _). split_and!; auto.
    + destruct (Hsilent pre Hq) as [? ?].
      destruct (Hopened _ eq_refl) as (? & ? & ?). done.
Qed.

Lemma rebuild_is_silent_witness :
  detected example_rebuild_trace = [] ∧
  removed example_rebuild_trace = [] ∧
  heap example_rebuilt = heap example_tracking ∧
  (hids_ example_rebuilt = hids_ example_tracking ∨
   hids_ example_rebuilt = ∅) ∧
  (registry_entry_ids_ example_rebuilt = registry_entry_ids_ example_tracking ∨
   registry_entry_ids_ example_rebuilt = ∅).
Proof.
  apply (rebuild_is_silent example_world timer_fired example_tracking
           example_rebuilt example_rebuild_trace).
  - right. right. reflexivity.
  - vm_compute. reflexivity.
Defined.

(** X19: no entry hands a null reference to [CFRelease] or to the run
    loop, and a session taken off the run loop is released in the same
    entry. *)
Theorem nothing_null_is_released w e s s' t :
  enter w e s = Some (tt, s', t) →
  (nullptr ∉ released t) ∧ (nullptr ∉ unscheduled t) ∧ (nullptr ∉ scheduled t) ∧
  (∀ m, m ∈ unscheduled t → m ∈ released t).
Proof.
  assert (∀ pre, quiet pre →
            (nullptr ∉ released (pre ++ stop_trace s ++ open_trace w s)) ∧
            (nullptr ∉ unscheduled (pre ++ stop_trace s ++ open_trace w s)) ∧
            (nullptr ∉ scheduled (pre ++ stop_trace s ++ open_trace w s)) ∧
            (∀ m, m ∈ unscheduled (pre ++ stop_trace s ++ open_trace w s) →
                  m ∈ released (pre ++ stop_trace s ++ open_trace w s)))
    as Hlifecycle.
  { intros pre Hq.
    destruct (quiet_projections _ Hq) as (_ & _ & Hs & Hu & Hr).
    rewrite !released_app, !unscheduled_app, !scheduled_app, Hs, Hu, Hr.
    unfold stop_trace, open_trace. repeat case_bool_decide; set_solver. }
  assert (∀ t0, quiet t0 →
            (nullptr ∉ released t0) ∧ (nullptr ∉ unscheduled t0) ∧
            (nullptr ∉ scheduled t0) ∧
            (∀ m, m ∈ unscheduled t0 → m ∈ released t0)) as Hquiet.
  { intros t0 Hq.
    destruct (quiet_projections _ Hq) as (_ & _ & -> & -> & ->).
    set_solver. }
  intros Hrun.
  destruct (enter_cases _ _ _ _ _ Hrun)
    as [[-> Hq]
       |[(pre & Hq & -> & ->)
        |[[-> ->]
         |[(d & id & Hd & _ & -> & ->)
          |[(d & id & Hd & Hv & -> & ->)
           |[(d & id & hid & Hd & Hc & Hh & -> & ->)
            |(d & id & Hd & Hc & Hh & -> & ->)]]]]]]; clear Hrun.
  - by apply Hquiet.
  - by apply Hlifecycle.
  - unfold stop_trace. case_bool_decide; set_solver.
  - apply Hquiet. by repeat constructor.
  - cbn. set_solver.
  - cbn. set_solver.
  - cbn. set_solver.
Qed.

Lemma nothing_null_is_released_witness :
  (nullptr ∉ released example_rebuild_trace) ∧
  (nullptr ∉ unscheduled example_rebuild_trace) ∧
  (nullptr ∉ scheduled example_rebuild_trace) ∧
  (∀ m, m ∈ unscheduled example_rebuild_trace →
        m ∈ released example_rebuild_trace).
Proof.
  apply (nothing_null_is_released example_world timer_fired example_tracking
           example_rebuilt example_rebuild_trace).
  vm_compute. reflexivity.
Defined.


(** X20: in every reachable state, with or without a session, [start] is
    [stop] followed by [start], and when it returns both maps are empty and
    no object has been touched; the session is the one IOKit returned
    (none, if it failed). *)
Theorem reachable_start_is_restart w s :
  reachable s →
  start w s = (stop;; start w) s ∧
  ∃ t,
    start w s = Some (tt, opened w (stopped s), t) ∧
    registry_entry_ids_ (opened w (stopped s)) = ∅ ∧
    get_hids (opened w (stopped s)) = ∅ ∧
    manager_ (opened w (stopped s)) = IOHIDManagerCreate w ∧
    heap (opened w (stopped s)) = heap s.
Proof.
  intros [Hoff _]%reachable_invariant.
  assert (start w s =
          Some (tt, opened w (stopped s), stop_trace s ++ open_trace w s))
    as Hstart.
  { rewrite start_eq. case_bool_decide as Hm; [done|].
    destruct (Hoff Hm) as (Ht & Hr & Hh).
    do 2 f_equal. f_equal. unfold opened, stopped.
    cbn [usage_pairs_ registry_entry_ids_ hids_ refresh_timer_ heap].
    by rewrite Ht, Hr, Hh. }
  split.
  - rewrite Hstart. erewrite bind_eq by apply stop_eq.
    by rewrite start_of_stopped.
  - by eexists.
Qed.

Lemma reachable_start_is_restart_witness :
  start example_world example_tracking =
    (stop;; start example_world) example_tracking ∧
  ∃ t,
    start example_world example_tracking =
      Some (tt, opened example_world (stopped example_tracking), t) ∧
    registry_entry_ids_ (opened example_world (stopped example_tracking)) = ∅ ∧
    get_hids (opened example_world (stopped example_tracking)) = ∅ ∧
    manager_ (opened example_world (stopped example_tracking)) =
      IOHIDManagerCreate example_world ∧
    heap (opened example_world (stopped example_tracking)) =
      heap example_tracking.
Proof.
  apply (reachable_start_is_restart example_world example_tracking).
  apply example_tracking_reachable.
Defined.
